(** * mcp-substack: the [download_substack] tool of [src/lib/index.mjs]

    A shallow embedding of the URL check ([validateUrl]), of the
    [ListToolsRequestSchema] and [CallToolRequestSchema] handlers and of
    [debug], followed by the properties the specification states about
    them and by further properties read off the code.

    The source file holds the module (lines 1-185) followed by a more
    verbose copy of it (lines 186-408); the embedding follows the module,
    line by line, and the copy in [Verbose].

    Layout:
    - JavaScript strings and the string primitives the code calls;
    - the effect monad: exceptions, and the diagnostic stream [debug]
      writes to;
    - the DOM and the cheerio queries the handler issues;
    - the platform interface ([new URL], [fetch], [cheerio.load],
      [JSON.stringify]);
    - [debug], [validateUrl] and the request handlers, plain and verbose;
    - the vocabulary of the specification and sample inputs;
    - the properties: strings, the URL check, selectors, the shape of a
      document, the value of a request, the response envelope, the
      subtitle; then the diagnostic stream, the extracted fields, the
      order of the body, the tool listing and the verbose copy. *)

From Stdlib Require Import String Ascii.
From Stdlib Require Import List NArith Arith Bool Lia.
Import ListNotations.

(* ================================================================== *)
(** * JavaScript strings *)
(* ================================================================== *)

(** A JavaScript string is a finite sequence of UTF-16 code units. *)
Definition jsstring := list N.

(** A literal of the source (ASCII only) as a sequence of code units. *)
Definition lit (s : string) : jsstring :=
  map N_of_ascii (list_ascii_of_string s).
Arguments lit s%_string : simpl never.

(** The escape [\n]. *)
Definition LF : N := 10%N.

Fixpoint str_eqb (a b : jsstring) : bool :=
  match a, b with
  | [], [] => true
  | x :: a', y :: b' => N.eqb x y && str_eqb a' b'
  | _, _ => false
  end.

(** [s.startsWith(t)] *)
Fixpoint startsWith (s t : jsstring) {struct t} : bool :=
  match t, s with
  | [], _ => true
  | c :: t', d :: s' => N.eqb c d && startsWith s' t'
  | _ :: _, [] => false
  end.

(** [s.endsWith(t)]: with [start = s.length - t.length], false when
    [start < 0], otherwise whether the code units of [s] from [start] on
    are those of [t]. *)
Definition endsWith (s t : jsstring) : bool :=
  if length t <=? length s
  then str_eqb (skipn (length s - length t) s) t
  else false.

(** [s.includes(t)]: [t] occurs in [s] at some index. *)
Fixpoint includes (s t : jsstring) : bool :=
  startsWith s t ||
  match s with
  | [] => false
  | _ :: s' => includes s' t
  end.

(** ECMAScript [WhiteSpace] and [LineTerminator] code units: what
    [String.prototype.trim] strips and what [\s] matches. *)
Definition isWhiteSpace (c : N) : bool :=
  ((9 <=? c) && (c <=? 13) || (c =? 32) || (c =? 160) || (c =? 5760)
   || (8192 <=? c) && (c <=? 8202) || (c =? 8232) || (c =? 8233)
   || (c =? 8239) || (c =? 8287) || (c =? 12288) || (c =? 65279))%N.

Fixpoint trimStart (s : jsstring) : jsstring :=
  match s with
  | c :: s' => if isWhiteSpace c then trimStart s' else s
  | [] => []
  end.

Definition trimEnd (s : jsstring) : jsstring := rev (trimStart (rev s)).

(** [s.trim()] *)
Definition trim (s : jsstring) : jsstring := trimEnd (trimStart s).

(** [a || b] on strings: the empty string is the only falsy string. *)
Definition str_or (a b : jsstring) : jsstring :=
  match a with
  | [] => b
  | _ :: _ => a
  end.

(** [arr.join(sep)] *)
Fixpoint join (sep : jsstring) (l : list jsstring) : jsstring :=
  match l with
  | [] => []
  | [x] => x
  | x :: l' => x ++ sep ++ join sep l'
  end.

(** ** The regular expression [/^\/p\/[\w-]+/] *)

(** [\w] without the unicode flag: [A-Za-z0-9_]. *)
Definition isWordChar (c : N) : bool :=
  ((48 <=? c) && (c <=? 57) || (65 <=? c) && (c <=? 90)
   || (c =? 95) || (97 <=? c) && (c <=? 122))%N.

(** The class [[\w-]]. *)
Definition isWordOrHyphen (c : N) : bool := isWordChar c || (c =? 45)%N.

(** The longest prefix of [s] inside a character class: what a greedy
    [+] or [*] over the class consumes. *)
Fixpoint takeClass (cls : N -> bool) (s : jsstring) : jsstring :=
  match s with
  | c :: s' => if cls c then c :: takeClass cls s' else []
  | [] => []
  end.

(** [/^\/p\/[\w-]+/.test(s)]: anchored at the start, the literal [/p/],
    then one or more characters of the class; nothing is required of what
    follows the match. *)
Definition test_p_slug (s : jsstring) : bool :=
  startsWith s (lit "/p/") &&
  (1 <=? length (takeClass isWordOrHyphen (skipn 3 s))).

(* ================================================================== *)
(** * Effects: exceptions and the diagnostic stream *)
(* ================================================================== *)

(** A thrown [Error] object: its [name] and its [message]. *)
Record JsError := mkError { err_name : jsstring; err_message : jsstring }.

(** [new Error(msg)] *)
Definition Error (msg : jsstring) : JsError := mkError (lit "Error") msg.

(** [Error.prototype.toString], which the template [`${err}`] calls. *)
Definition Error_toString (e : JsError) : jsstring :=
  match err_name e, err_message e with
  | [], m => m
  | n, [] => n
  | n, m => n ++ lit ": " ++ m
  end.

(** What a call leaves behind: a value, or a thrown error. *)
Inductive Completion (A : Type) : Type :=
| Normal (a : A)
| Throw (e : JsError).
Arguments Normal {A} a.
Arguments Throw {A} e.

(** The part of the process a request can observe or change: the wall
    clock ([new Date()] at its successive readings) and what has been
    written to [process.stderr]. *)
Record World := mkWorld {
  clock : nat -> jsstring;
  reads : nat;
  stderr : list jsstring
}.

Definition Eff (A : Type) : Type := World -> Completion A * World.

Definition ret {A} (a : A) : Eff A := fun w => (Normal a, w).

Definition bind {A B} (m : Eff A) (k : A -> Eff B) : Eff B :=
  fun w =>
    match m w with
    | (Normal a, w') => k a w'
    | (Throw e, w') => (Throw e, w')
    end.

(** [throw e] *)
Definition throw {A} (e : JsError) : Eff A := fun w => (Throw e, w).

(** [try { m } catch (e) { h e }] *)
Definition try_catch {A} (m : Eff A) (h : JsError -> Eff A) : Eff A :=
  fun w =>
    match m w with
    | (Normal a, w') => (Normal a, w')
    | (Throw e, w') => h e w'
    end.

(** A call into the platform that either throws or yields a value. *)
Definition call {A} (r : JsError + A) : Eff A :=
  match r with
  | inl e => throw e
  | inr a => ret a
  end.

Declare Scope eff_scope.
Delimit Scope eff_scope with eff.
Notation "x <- m ;; k" := (bind m (fun x => k))
  (at level 61, m at next level, right associativity) : eff_scope.
Notation "m ;; k" := (bind m (fun _ => k))
  (at level 61, right associativity) : eff_scope.
Open Scope eff_scope.

(** The value a run returns, and the world it leaves. *)
Definition result {A} (m : Eff A) (w : World) : Completion A := fst (m w).
Definition after {A} (m : Eff A) (w : World) : World := snd (m w).

(* ================================================================== *)
(** * The document object model and the cheerio queries *)
(* ================================================================== *)

(** The tree [cheerio.load] builds (domhandler nodes): text, comments and
    elements with their attribute table and their children. *)
#[warnings="-register-all"]
Inductive node : Type :=
| Text (data : jsstring)
| Comment (data : jsstring)
| Element (name : jsstring) (attribs : list (jsstring * jsstring))
          (children : list node).

(** A loaded document [$]: the children of the root node. *)
Definition Document := list node.

(** domutils [textContent], which cheerio's [text()] sums over a
    selection: the data of the text nodes below a node, in order. *)
Fixpoint textContent (n : node) : jsstring :=
  match n with
  | Text d => d
  | Comment _ => []
  | Element _ _ cs => concat (map textContent cs)
  end.

(** Nodes are objects: two equal-looking elements at different places are
    different nodes.  A node's identity is its position, the child indices
    from the root down. *)
Definition path := list nat.

(** An element handle, as held by a cheerio selection. *)
Record Elem := mkElem {
  loc : path;
  tagName : jsstring;
  attrs : list (jsstring * jsstring);
  childNodes : list node
}.

Fixpoint mapi_from {A B} (f : nat -> A -> B) (i : nat) (l : list A) : list B :=
  match l with
  | [] => []
  | x :: l' => f i x :: mapi_from f (S i) l'
  end.

(** The elements of the subtree rooted at node [n] (which sits at [p]),
    in document order: [n] itself first when it is an element. *)
Fixpoint subtree (p : path) (n : node) : list Elem :=
  match n with
  | Element t a cs =>
      mkElem p t a cs ::
      concat (mapi_from (fun i c => subtree (p ++ [i]) c) 0 cs)
  | _ => []
  end.

Definition forest (p : path) (cs : list node) : list Elem :=
  concat (mapi_from (fun i c => subtree (p ++ [i]) c) 0 cs).

(** Every element of the document, in document order. *)
Definition all_elements (doc : Document) : list Elem := forest [] doc.

(** [getChildren(e).filter(isTag)] *)
Definition child_elems (e : Elem) : list Elem :=
  concat (mapi_from
            (fun i c =>
               match c with
               | Element t a cs => [mkElem (loc e ++ [i]) t a cs]
               | _ => []
               end) 0 (childNodes e)).

(** An element and the elements below it, in document order. *)
Definition self_and_descendants (e : Elem) : list Elem :=
  e :: forest (loc e) (childNodes e).

Fixpoint getAttributeValue (a : list (jsstring * jsstring)) (name : jsstring)
  : option jsstring :=
  match a with
  | [] => None
  | (k, v) :: a' => if str_eqb k name then Some v else getAttributeValue a' name
  end.

(** ** Selectors *)

(** The simple selectors that occur in the source. *)
Inductive simple : Type :=
| ByTag (name : jsstring)                      (* [h1] *)
| ByClass (name : jsstring)                    (* [.subtitle] *)
| AttrContains (attr value : jsstring).        (* [[content*="substack"]] *)

(** A compound selector ([h1.post-title]): all of its parts hold. *)
Definition compound := list simple.

(** A selector list ([p, h2, h3]): one of its members holds. *)
Definition selector := list compound.

(** css-select's test for [.c] against a [class] value [v]: the pattern
    [(?:^|\s)c(?:$|\s)] is searched in [v].  [boundary] says whether the
    position at the head of [v] is the start or follows white space. *)
Fixpoint wordMatch (boundary : bool) (v c : jsstring) : bool :=
  (boundary && startsWith v c &&
   match skipn (length c) v with
   | [] => true
   | d :: _ => isWhiteSpace d
   end) ||
  match v with
  | [] => false
  | d :: v' => wordMatch (isWhiteSpace d) v' c
  end.

Definition matches_simple (e : Elem) (s : simple) : bool :=
  match s with
  | ByTag n => str_eqb (tagName e) n
  | ByClass c =>
      match getAttributeValue (attrs e) (lit "class") with
      | Some v => wordMatch true v c
      | None => false
      end
  | AttrContains a x =>
      match getAttributeValue (attrs e) a with
      | Some v => includes v x
      | None => false
      end
  end.

Definition matches (sel : selector) (e : Elem) : bool :=
  existsb (fun c => forallb (matches_simple e) c) sel.

(** ** Selections *)

(** [$(sel)]: the elements of the document that match, in document
    order. *)
Definition query (doc : Document) (sel : selector) : list Elem :=
  filter (matches sel) (all_elements doc).

(** [.first()] *)
Definition first (s : list Elem) : list Elem := firstn 1 s.

(** [.text()]: the text contents of {e every} element of the selection,
    concatenated. *)
Definition text (s : list Elem) : jsstring :=
  concat (map (fun e => concat (map textContent (childNodes e))) s).

Definition path_eqb (p q : path) : bool :=
  if list_eq_dec Nat.eq_dec p q then true else false.

(** [p] is a proper prefix of [q]: the node at [p] is an ancestor of the
    node at [q]. *)
Fixpoint ancestor_path (p q : path) : bool :=
  match p, q with
  | [], _ :: _ => true
  | i :: p', j :: q' => Nat.eqb i j && ancestor_path p' q'
  | _, [] => false
  end.

(** domutils [removeSubsets]: drop a node that occurs earlier in the
    array or that has an ancestor in the array; the order is kept. *)
Fixpoint removeSubsets_from (nodes seen rest : list Elem) : list Elem :=
  match rest with
  | [] => []
  | e :: rest' =>
      if existsb (fun x => path_eqb (loc x) (loc e)) seen
         || existsb (fun x => ancestor_path (loc x) (loc e)) nodes
      then removeSubsets_from nodes (seen ++ [e]) rest'
      else e :: removeSubsets_from nodes (seen ++ [e]) rest'
  end.

Definition removeSubsets (nodes : list Elem) : list Elem :=
  removeSubsets_from nodes [] nodes.

(** [.find(sel)]: cheerio starts from the element children of the
    selection, removes the subsets, and searches each remaining subtree
    in document order. *)
Definition find (ctx : list Elem) (sel : selector) : list Elem :=
  filter (matches sel)
         (flat_map self_and_descendants
                   (removeSubsets (flat_map child_elems ctx))).

(** The selectors of the source. *)
Definition sel_meta_substack : selector :=                (* meta[content*="substack"] *)
  [[ByTag (lit "meta"); AttrContains (lit "content") (lit "substack")]].
Definition sel_script_substack : selector :=              (* script[src*="substack"] *)
  [[ByTag (lit "script"); AttrContains (lit "src") (lit "substack")]].
Definition sel_post_content : selector := [[ByClass (lit "post-content")]].
Definition sel_subscriber_only : selector := [[ByClass (lit "subscriber-only")]].
Definition sel_h1 : selector := [[ByTag (lit "h1")]].
Definition sel_h1_post_title : selector :=                (* h1.post-title *)
  [[ByTag (lit "h1"); ByClass (lit "post-title")]].
Definition sel_subtitle : selector := [[ByClass (lit "subtitle")]].
Definition sel_author_name : selector := [[ByClass (lit "author-name")]].
Definition sel_a_subscriber_only : selector :=            (* a.subscriber-only *)
  [[ByTag (lit "a"); ByClass (lit "subscriber-only")]].
Definition sel_containers : selector :=                   (* .post-content, article, .body *)
  [[ByClass (lit "post-content")]; [ByTag (lit "article")]; [ByClass (lit "body")]].
Definition sel_blocks : selector :=                       (* p, h2, h3 *)
  [[ByTag (lit "p")]; [ByTag (lit "h2")]; [ByTag (lit "h3")]].

(* ================================================================== *)
(** * The platform the module runs on *)
(* ================================================================== *)

(** The two properties of a parsed [URL] object the code reads. *)
Record URL := mkURL { hostname : jsstring; pathname : jsstring }.

(** A node-fetch [Response]: its status and what [response.text()]
    settles to. *)
Record Response := mkResponse {
  status : nat;
  response_text : JsError + jsstring
}.

(** The values handed to [debug] as extra arguments. *)
Inductive JsValue : Type :=
| VString (s : jsstring)
| VNumber (n : nat)
| VError (e : JsError)
| VParams (name url : jsstring).               (* [request.params] *)

(** What the module imports and does not define: the WHATWG URL parser
    ([new URL(s)], which throws on a string it cannot parse), node-fetch,
    the HTML parser behind [cheerio.load] and [JSON.stringify]. *)
Class Platform := {
  URL_new : jsstring -> JsError + URL;
  fetch : jsstring -> JsError + Response;
  cheerio_load : jsstring -> Document;
  JSON_stringify : JsValue -> jsstring
}.

(* ================================================================== *)
(** * The module: [debug], [validateUrl] and the request handler *)
(* ================================================================== *)

(** The response envelope. *)
Record ContentBlock := mkBlock { type : jsstring; block_text : jsstring }.

(** [isError] is an optional property: [None] when the object literal
    does not have it. *)
Record ToolResult := mkResult {
  content : list ContentBlock;
  isError : option bool
}.

(** [request.params]: the tool name and [arguments.url]. *)
Record Request := mkRequest { name : jsstring; url : jsstring }.

Section Server.
Context {P : Platform}.

(** [function debug(message, ...args)], lines 9-12. *)
Definition debug (message : jsstring) (args : list JsValue) : Eff unit :=
  fun w =>
    let timestamp := clock w (reads w) in
    (Normal tt,
     mkWorld (clock w) (S (reads w))
             (stderr w ++
              [lit "[" ++ timestamp ++ lit "] DEBUG: " ++ message ++ lit " "
               ++ join (lit " ") (map JSON_stringify args) ++ [LF]])).

(** [function validateUrl(url)], lines 17-39. *)
Definition validateUrl (url : jsstring) : Eff bool :=
  try_catch
    (parsed <- call (URL_new url) ;;
     let isValidUrl :=
       endsWith (hostname parsed) (lit ".substack.com")
       || test_p_slug (pathname parsed) in
     if negb isValidUrl
     then debug (lit "Invalid URL structure:") [VString url] ;; ret false
     else ret true)
    (fun e => debug (lit "URL parsing error:") [VError e] ;; ret false).

(** The diagnostic texts of the failure results. *)
Definition MSG_INVALID_URL : jsstring :=
  lit "Invalid URL format. Please provide a valid Substack post URL. This could be either a substack.com domain or a custom domain with a Substack post structure.".
Definition MSG_NOT_SUBSTACK : jsstring :=
  lit "This URL doesn't appear to be a Substack post. Please ensure you're providing a valid Substack article URL.".
Definition MSG_SUBSCRIBER_ONLY : jsstring :=
  lit "This appears to be a subscriber-only post. I cannot access the full content.".

(** Lines 99-104. *)
Definition hasSubstackMarkers (doc : Document) : bool :=
  (0 <? length (query doc sel_meta_substack))
  || (0 <? length (query doc sel_script_substack))
  || (0 <? length (query doc sel_post_content))
  || (0 <? length (query doc sel_subscriber_only)).

(** Line 117. *)
Definition extract_title (doc : Document) : jsstring :=
  str_or (trim (text (first (query doc sel_h1))))
         (trim (text (query doc sel_h1_post_title))).

(** Line 120. *)
Definition extract_subtitle (doc : Document) : jsstring :=
  trim (text (query doc sel_subtitle)).

(** Line 121. *)
Definition extract_author (doc : Document) : jsstring :=
  str_or (trim (text (query doc sel_author_name)))
         (trim (text (query doc sel_a_subscriber_only))).

(** The elements the [each] loop of line 125 visits. *)
Definition content_blocks (doc : Document) : list Elem :=
  find (query doc sel_containers) sel_blocks.

(** Lines 124-127: the accumulator starts empty and every visited element
    appends its trimmed text and two line feeds. *)
Definition extract_content (doc : Document) : jsstring :=
  fold_left (fun content el => content ++ trim (text [el]) ++ [LF; LF])
            (content_blocks doc) [].

(** The template literal of line 148. *)
Definition success_text (title author subtitle content : jsstring) : jsstring :=
  lit "Title: " ++ title ++ [LF] ++ lit "Author: " ++ author ++ [LF]
  ++ lit "Subtitle: " ++ subtitle ++ [LF; LF] ++ content.

(** Lines 96-151: everything the handler does once the page text is in
    hand. *)
Definition processHtml (html : jsstring) : Eff ToolResult :=
  let doc := cheerio_load html in
  if negb (hasSubstackMarkers doc)
  then
    debug (lit "No Substack markers found in page") [] ;;
    ret {| content := [{| type := lit "text"; block_text := MSG_NOT_SUBSTACK |}];
           isError := Some true |}
  else
    let title := extract_title doc in
    debug (lit "Found title:") [VString title] ;;
    let subtitle := extract_subtitle doc in
    let author := extract_author doc in
    debug (lit "Found author:") [VString author] ;;
    let content := extract_content doc in
    debug (lit "Extracted content length:") [VNumber (length content)] ;;
    match content with
    | [] =>
        debug (lit "No content found - might be subscriber-only") [] ;;
        ret {| content := [{| type := lit "text";
                              block_text := MSG_SUBSCRIBER_ONLY |}];
               isError := Some true |}
    | _ :: _ =>
        debug (lit "Successfully processed article") [] ;;
        ret {| content := [{| type := lit "text";
                              block_text := success_text title author subtitle content |}];
               isError := None |}
    end.

(** The [CallToolRequestSchema] handler, lines 68-164. *)
Definition handler (request : Request) : Eff ToolResult :=
  debug (lit "Received request:") [VParams (name request) (url request)] ;;
  if negb (str_eqb (name request) (lit "download_substack"))
  then
    debug (lit "Unknown tool requested:") [VString (name request)] ;;
    throw (Error (lit "Unknown tool: " ++ name request))
  else
    try_catch
      (let url := url request in
       valid <- validateUrl url ;;
       if negb valid
       then
         ret {| content := [{| type := lit "text"; block_text := MSG_INVALID_URL |}];
                isError := Some true |}
       else
         debug (lit "Processing URL:") [VString url] ;;
         response <- call (fetch url) ;;
         debug (lit "Fetch response status:") [VNumber (status response)] ;;
         html <- call (response_text response) ;;
         debug (lit "Received HTML length:") [VNumber (length html)] ;;
         processHtml html)
      (fun err =>
         debug (lit "Error processing request:") [VError err] ;;
         ret {| content := [{| type := lit "text";
                               block_text := lit "Error processing Substack post: "
                                             ++ Error_toString err |}];
                isError := Some true |}).

End Server.

(* ================================================================== *)
(** * The tool listing *)
(* ================================================================== *)

(** One entry of [properties] in an input schema. *)
Record SchemaProperty := mkSchemaProperty {
  property_type : jsstring;
  property_description : jsstring
}.

Record InputSchema := mkInputSchema {
  schema_type : jsstring;
  properties : list (jsstring * SchemaProperty);
  required : list jsstring
}.

(** An entry of the [tools] array. *)
Record Tool := mkTool {
  tool_name : jsstring;
  description : jsstring;
  inputSchema : InputSchema
}.

(** The [ListToolsRequestSchema] handler, lines 50-66: the [tools]
    array of the object it returns. *)
Definition listTools : Eff (list Tool) :=
  ret [ {| tool_name := lit "download_substack";
           description := lit "Download and parse content from a Substack post";
           inputSchema :=
             {| schema_type := lit "object";
                properties :=
                  [(lit "url",
                    {| property_type := lit "string";
                       property_description := lit "URL of the Substack post" |})];
                required := [lit "url"] |} |} ].

(* ================================================================== *)
(** * The verbose copy of the module, lines 186-408 *)
(* ================================================================== *)

(** The second half of the source file repeats the module with a [debug]
    that also appends every line to a log file, and with more logging.
    Its functions keep their names, inside [Verbose]. *)
Module Verbose.

(** The extra arguments of [debug].  An object is printed with
    [JSON.stringify(a, null, 2)]; anything else is joined as it is. *)
#[warnings="-register-all"]
Inductive LogValue : Type :=
| LString (s : jsstring)
| LNumber (n : nat)
| LBoolean (b : bool)
| LObject (fields : list (jsstring * LogValue)).

(** What the verbose module reads beyond the plain one: two more
    properties of a response, the [stack] of an error, [path.join] (which
    throws when [process.env.HOME] is undefined), and the conversions to
    text. *)
Class VerbosePlatform := {
  plain :: Platform;
  statusText : Response -> jsstring;
  headers : Response -> list (jsstring * jsstring);
  stack : JsError -> jsstring;
  path_join : option jsstring -> jsstring -> JsError + jsstring;
  JSON_stringify_pretty : LogValue -> jsstring;
  Number_toString : nat -> jsstring
}.

(** The process as the verbose module sees it: the clock and [stderr] as
    before, [process.env.HOME], the files with their contents, and the
    paths the file system refuses to append to, with the error it
    raises. *)
Record Host := mkHost {
  std : World;
  HOME : option jsstring;
  files : list (jsstring * jsstring);
  fs_fault : jsstring -> option JsError
}.

Definition Eff (A : Type) : Type := Host -> Completion A * Host.

Definition ret {A} (a : A) : Eff A := fun h => (Normal a, h).

Definition bind {A B} (m : Eff A) (k : A -> Eff B) : Eff B :=
  fun h =>
    match m h with
    | (Normal a, h') => k a h'
    | (Throw e, h') => (Throw e, h')
    end.

Definition throw {A} (e : JsError) : Eff A := fun h => (Throw e, h).

Definition try_catch {A} (m : Eff A) (c : JsError -> Eff A) : Eff A :=
  fun h =>
    match m h with
    | (Normal a, h') => (Normal a, h')
    | (Throw e, h') => c e h'
    end.

Definition call {A} (r : JsError + A) : Eff A :=
  match r with
  | inl e => throw e
  | inr a => ret a
  end.

Definition result {A} (m : Eff A) (h : Host) : Completion A := fst (m h).
Definition after {A} (m : Eff A) (h : Host) : Host := snd (m h).

Declare Scope verbose_scope.
Notation "x <- m ;; k" := (bind m (fun x => k))
  (at level 61, m at next level, right associativity) : verbose_scope.
Notation "m ;; k" := (bind m (fun _ => k))
  (at level 61, right associativity) : verbose_scope.
Local Open Scope verbose_scope.

(** [new Date().toISOString()] *)
Definition now : Eff jsstring :=
  fun h =>
    (Normal (clock (std h) (reads (std h))),
     mkHost (mkWorld (clock (std h)) (S (reads (std h))) (stderr (std h)))
            (HOME h) (files h) (fs_fault h)).

(** [process.stderr.write(line)] *)
Definition stderr_write (line : jsstring) : Eff unit :=
  fun h =>
    (Normal tt,
     mkHost (mkWorld (clock (std h)) (reads (std h)) (stderr (std h) ++ [line]))
            (HOME h) (files h) (fs_fault h)).

(** [process.env.HOME] *)
Definition env_HOME : Eff (option jsstring) := fun h => (Normal (HOME h), h).

(** The contents of a file, empty when there is none. *)
Fixpoint read_file (fs : list (jsstring * jsstring)) (p : jsstring) : jsstring :=
  match fs with
  | [] => []
  | (q, c) :: fs' => if str_eqb q p then c else read_file fs' p
  end.

(** The files after [data] is appended to [p], which is created when it
    does not exist. *)
Fixpoint append_file (fs : list (jsstring * jsstring)) (p data : jsstring)
  : list (jsstring * jsstring) :=
  match fs with
  | [] => [(p, data)]
  | (q, c) :: fs' =>
      if str_eqb q p then (q, c ++ data) :: fs'
      else (q, c) :: append_file fs' p data
  end.

(** [fs.appendFileSync(p, data)]: throws what the file system raises,
    appends otherwise. *)
Definition appendFileSync (p data : jsstring) : Eff unit :=
  fun h =>
    match fs_fault h p with
    | Some e => (Throw e, h)
    | None =>
        (Normal tt,
         mkHost (std h) (HOME h) (append_file (files h) p data) (fs_fault h))
    end.

Section VerboseServer.
Context {V : VerbosePlatform}.

(** [typeof a === 'object' ? JSON.stringify(a, null, 2) : a], then the
    conversion [join] applies. *)
Definition render (a : LogValue) : jsstring :=
  match a with
  | LObject _ => JSON_stringify_pretty a
  | LString s => s
  | LNumber n => Number_toString n
  | LBoolean b => if b then lit "true" else lit "false"
  end.

(** [function debug(message, ...args)], lines 200-212. *)
Definition debug (message : jsstring) (args : list LogValue) : Eff unit :=
  timestamp <- now ;;
  let logMessage :=
    lit "[" ++ timestamp ++ lit "] DEBUG: " ++ message ++ lit " "
    ++ join (lit " ") (map render args) ++ [LF] in
  stderr_write logMessage ;;
  home <- env_HOME ;;
  logPath <- call (path_join home (lit "mcp-substack-debug.log")) ;;
  appendFileSync logPath logMessage.

(** [function validateUrl(url)], lines 215-239. *)
Definition validateUrl (url : jsstring) : Eff bool :=
  try_catch
    (parsed <- call (URL_new url) ;;
     debug (lit "Validating URL:")
           [LObject [(lit "hostname", LString (hostname parsed));
                     (lit "pathname", LString (pathname parsed));
                     (lit "fullUrl", LString url)]] ;;
     let isValidUrl :=
       endsWith (hostname parsed) (lit ".substack.com")
       || test_p_slug (pathname parsed) in
     debug (lit "URL validation result:")
           [LObject [(lit "isValid", LBoolean isValidUrl);
                     (lit "matchedPattern",
                      LString (if endsWith (hostname parsed) (lit ".substack.com")
                               then lit "substack.com domain"
                               else lit "custom domain"))]] ;;
     ret isValidUrl)
    (fun e => debug (lit "URL validation error:") [LString (err_message e)] ;;
              ret false).

(** The [ListToolsRequestSchema] handler, lines 253-270. *)
Definition listTools : Eff (list Tool) :=
  debug (lit "Listing available tools") [] ;;
  ret [ {| tool_name := lit "download_substack";
           description := lit "Download and parse content from a Substack post";
           inputSchema :=
             {| schema_type := lit "object";
                properties :=
                  [(lit "url",
                    {| property_type := lit "string";
                       property_description := lit "URL of the Substack post" |})];
                required := [lit "url"] |} |} ].

Definition MSG_INVALID_URL : jsstring :=
  lit "Invalid URL format. Please provide a valid Substack post URL.".
Definition MSG_NOT_SUBSTACK : jsstring :=
  lit "This URL doesn't appear to be a Substack post.".
Definition MSG_SUBSCRIBER_ONLY : jsstring :=
  lit "This appears to be a subscriber-only post. I cannot access the full content.".

(** The [markers] object of lines 310-315, as the list of its values. *)
Definition markers (doc : Document) : list nat :=
  [length (query doc sel_meta_substack);
   length (query doc sel_script_substack);
   length (query doc sel_post_content);
   length (query doc sel_subscriber_only)].

Definition markers_object (doc : Document) : LogValue :=
  LObject [(lit "meta", LNumber (length (query doc sel_meta_substack)));
           (lit "script", LNumber (length (query doc sel_script_substack)));
           (lit "postContent", LNumber (length (query doc sel_post_content)));
           (lit "subscriberOnly", LNumber (length (query doc sel_subscriber_only)))].

(** [request.params] *)
Definition params_object (request : Request) : LogValue :=
  LObject [(lit "name", LString (name request));
           (lit "arguments", LObject [(lit "url", LString (url request))])].

(** The argument of the two error logs: [{error: e.message, stack: e.stack}]. *)
Definition error_object (e : JsError) : LogValue :=
  LObject [(lit "error", LString (err_message e));
           (lit "stack", LString (stack e))].

(** Lines 307-363: the pass over the page text. *)
Definition processHtml (html : jsstring) : Eff ToolResult :=
  let doc := cheerio_load html in
  debug (lit "Substack markers found:") [markers_object doc] ;;
  if forallb (fun count => count =? 0) (markers doc)
  then
    debug (lit "No Substack markers found in page") [] ;;
    ret {| content := [{| type := lit "text"; block_text := MSG_NOT_SUBSTACK |}];
           isError := Some true |}
  else
    let title := extract_title doc in
    let subtitle := extract_subtitle doc in
    let author := extract_author doc in
    debug (lit "Extracted metadata:")
          [LObject [(lit "title", LString title);
                    (lit "subtitle", LString subtitle);
                    (lit "author", LString author)]] ;;
    let content := extract_content doc in
    debug (lit "Content extraction:")
          [LObject [(lit "extractedLength", LNumber (length content));
                    (lit "firstChars",
                     LString (firstn 100 content ++ lit "..."))]] ;;
    match content with
    | [] =>
        debug (lit "No content found - might be subscriber-only") [] ;;
        ret {| content := [{| type := lit "text";
                              block_text := MSG_SUBSCRIBER_ONLY |}];
               isError := Some true |}
    | _ :: _ =>
        debug (lit "Successfully processed article") [] ;;
        ret {| content := [{| type := lit "text";
                              block_text := success_text title author subtitle content |}];
               isError := None |}
    end.

(** The [CallToolRequestSchema] handler, lines 272-378. *)
Definition handler (request : Request) : Eff ToolResult :=
  debug (lit "========= New Request =========") [] ;;
  debug (lit "Received request:") [params_object request] ;;
  if negb (str_eqb (name request) (lit "download_substack"))
  then
    debug (lit "Unknown tool requested:") [LString (name request)] ;;
    throw (Error (lit "Unknown tool: " ++ name request))
  else
    try_catch
      (let url := url request in
       debug (lit "Processing URL:") [LString url] ;;
       valid <- validateUrl url ;;
       if negb valid
       then
         debug (lit "URL validation failed") [] ;;
         ret {| content := [{| type := lit "text"; block_text := MSG_INVALID_URL |}];
                isError := Some true |}
       else
         debug (lit "Fetching content...") [] ;;
         response <- call (fetch url) ;;
         debug (lit "Fetch response:")
               [LObject [(lit "status", LNumber (status response));
                         (lit "statusText", LString (statusText response));
                         (lit "headers",
                          LObject (map (fun kv => (fst kv, LString (snd kv)))
                                       (headers response)))]] ;;
         html <- call (response_text response) ;;
         debug (lit "Received HTML length:") [LNumber (length html)] ;;
         processHtml html)
      (fun err =>
         debug (lit "Error processing request:") [error_object err] ;;
         ret {| content := [{| type := lit "text";
                               block_text := lit "Error processing Substack post: "
                                             ++ err_message err |}];
                isError := Some true |}).

End VerboseServer.

End Verbose.

(** A verbose platform is a platform. *)
#[global] Existing Instance Verbose.plain.

(* ================================================================== *)
(** * The vocabulary of the specification *)
(* ================================================================== *)

(** ** Admissible URLs *)

(** The host rule: [hostname.endsWith('.substack.com')]. *)
Definition SubstackHost (hostname : jsstring) : Prop :=
  exists sub, hostname = sub ++ lit ".substack.com".

(** What the regular expression [/^\/p\/[\w-]+/] accepts. *)
Definition PostPath (pathname : jsstring) : Prop :=
  exists slug rest,
    pathname = lit "/p/" ++ slug ++ rest
    /\ slug <> []
    /\ forall c, In c slug -> isWordOrHyphen c = true.

(** ** Markers, containers and blocks *)

(** [v] has [t] as a substring. *)
Definition Contains (v t : jsstring) : Prop :=
  exists pre post, v = pre ++ t ++ post.

(** [c] occurs in [v] as a word: it starts at the beginning of [v] or
    after a white-space character, and ends at the end of [v] or before a
    white-space character. *)
Definition WordOf (v c : jsstring) : Prop :=
  exists pre post,
    v = pre ++ c ++ post
    /\ (pre = [] \/ exists pre' d, pre = pre' ++ [d] /\ isWhiteSpace d = true)
    /\ (post = [] \/ exists d post', post = d :: post' /\ isWhiteSpace d = true).

(** The element carries the class [c]. *)
Definition HasClass (e : Elem) (c : jsstring) : Prop :=
  exists v, getAttributeValue (attrs e) (lit "class") = Some v /\ WordOf v c.

(** The attribute [a] of the element contains [t]. *)
Definition AttrHas (e : Elem) (a t : jsstring) : Prop :=
  exists v, getAttributeValue (attrs e) a = Some v /\ Contains v t.

(** The four structural markers of a Substack page. *)
Inductive Marker (e : Elem) : Prop :=
| marker_meta :
    tagName e = lit "meta" -> AttrHas e (lit "content") (lit "substack") ->
    Marker e
| marker_script :
    tagName e = lit "script" -> AttrHas e (lit "src") (lit "substack") ->
    Marker e
| marker_post_content : HasClass e (lit "post-content") -> Marker e
| marker_subscriber_only : HasClass e (lit "subscriber-only") -> Marker e.

(** The document has an element that is a marker. *)
Definition Marked (doc : Document) : Prop :=
  exists e, In e (all_elements doc) /\ Marker e.

(** A paragraph or heading: [p, h2, h3]. *)
Definition Block (e : Elem) : Prop :=
  tagName e = lit "p" \/ tagName e = lit "h2" \/ tagName e = lit "h3".

(** A body container: [.post-content, article, .body]. *)
Definition Container (c : Elem) : Prop :=
  HasClass c (lit "post-content") \/ tagName c = lit "article"
  \/ HasClass c (lit "body").

(** No [p], [h2] or [h3] element, blank or not, lies below a container:
    the body loop has nothing to visit.  This counts elements, not their
    text. *)
Definition NoBlocks (doc : Document) : Prop :=
  forall c e,
    In c (all_elements doc) -> Container c ->
    In e (forest (loc c) (childNodes c)) -> ~ Block e.

(** ** Results *)

(** The two shapes of a returned result. *)
Definition failure (t : jsstring) : ToolResult :=
  {| content := [{| type := lit "text"; block_text := t |}];
     isError := Some true |}.

Definition success (t : jsstring) : ToolResult :=
  {| content := [{| type := lit "text"; block_text := t |}];
     isError := None |}.

(** The text of the catch-all failure, line 158. *)
Definition error_text (err : JsError) : jsstring :=
  lit "Error processing Substack post: " ++ Error_toString err.

(** The text of a failure result: one of the four diagnostics. *)
Definition Diagnostic (t : jsstring) : Prop :=
  t = MSG_INVALID_URL \/ t = MSG_NOT_SUBSTACK \/ t = MSG_SUBSCRIBER_ONLY
  \/ exists err, t = error_text err.

(** The text of a success result: the template filled with a non-empty
    body. *)
Definition ArticleText (t : jsstring) : Prop :=
  exists title author subtitle body,
    body <> [] /\ t = success_text title author subtitle body.

(** What one visited element contributes to the body. *)
Definition block_of (el : Elem) : jsstring := trim (text [el]) ++ [LF; LF].

(** The result for a loaded document, without the logging. *)
Definition article (doc : Document) : ToolResult :=
  if hasSubstackMarkers doc
  then
    match extract_content doc with
    | [] => failure MSG_SUBSCRIBER_ONLY
    | _ :: _ =>
        success (success_text (extract_title doc) (extract_author doc)
                              (extract_subtitle doc) (extract_content doc))
    end
  else failure MSG_NOT_SUBSTACK.

Section Reference.
Context {P : Platform}.

(** The value of [isValidUrl], or [false] when the parser throws. *)
Definition admissible (url : jsstring) : bool :=
  match URL_new url with
  | inl _ => false
  | inr parsed =>
      endsWith (hostname parsed) (lit ".substack.com")
      || test_p_slug (pathname parsed)
  end.

(** What [fetch] followed by [response.text()] yields. *)
Definition fetched (url : jsstring) : JsError + jsstring :=
  match fetch url with
  | inl e => inl e
  | inr response => response_text response
  end.

(** The value of a call of the tool, without the logging. *)
Definition reply (request : Request) : Completion ToolResult :=
  if str_eqb (name request) (lit "download_substack")
  then
    Normal
      (if admissible (url request)
       then
         match fetched (url request) with
         | inl err => failure (error_text err)
         | inr html => article (cheerio_load html)
         end
       else failure MSG_INVALID_URL)
  else Throw (Error (lit "Unknown tool: " ++ name request)).

End Reference.

(** ** The diagnostic stream *)

(** The line [debug] writes for a message body read at clock position
    [i]. *)
Definition stamp (clk : nat -> jsstring) (i : nat) (body : jsstring) : jsstring :=
  lit "[" ++ clk i ++ lit "] DEBUG: " ++ body ++ [LF].

(** The world after the lines of [bodies] were written, one clock
    reading each. *)
Definition logged (w : World) (bodies : list jsstring) : World :=
  mkWorld (clock w) (reads w + length bodies)
          (stderr w ++ mapi_from (stamp (clock w)) (reads w) bodies).

Section LogReference.
Context {P : Platform}.

(** What follows "DEBUG: " in the line of [debug(message, ...args)]. *)
Definition log_body (message : jsstring) (args : list JsValue)
  : jsstring :=
  message ++ lit " " ++ join (lit " ") (map JSON_stringify args).

(** The body [validateUrl] logs when it rejects [url]. *)
Definition rejection_body (url : jsstring) : jsstring :=
  match URL_new url with
  | inl e => log_body (lit "URL parsing error:") [VError e]
  | inr _ => log_body (lit "Invalid URL structure:") [VString url]
  end.

(** The bodies the pass over a page logs, lines 96-151. *)
Definition processHtml_log (html : jsstring) : list jsstring :=
  let doc := cheerio_load html in
  if hasSubstackMarkers doc
  then
    [log_body (lit "Found title:") [VString (extract_title doc)];
     log_body (lit "Found author:") [VString (extract_author doc)];
     log_body (lit "Extracted content length:")
              [VNumber (length (extract_content doc))];
     match extract_content doc with
     | [] => log_body (lit "No content found - might be subscriber-only") []
     | _ :: _ => log_body (lit "Successfully processed article") []
     end]
  else [log_body (lit "No Substack markers found in page") []].

(** The bodies a known-tool request logs after "Received request:". *)
Definition download_log (url : jsstring) : list jsstring :=
  if admissible url
  then
    log_body (lit "Processing URL:") [VString url] ::
    match fetch url with
    | inl err => [log_body (lit "Error processing request:") [VError err]]
    | inr response =>
        log_body (lit "Fetch response status:") [VNumber (status response)] ::
        match response_text response with
        | inl err => [log_body (lit "Error processing request:") [VError err]]
        | inr html =>
            log_body (lit "Received HTML length:") [VNumber (length html)] ::
            processHtml_log html
        end
    end
  else [rejection_body url].

(** The bodies one request logs. *)
Definition handler_log (request : Request) : list jsstring :=
  log_body (lit "Received request:") [VParams (name request) (url request)] ::
  if str_eqb (name request) (lit "download_substack")
  then download_log (url request)
  else [log_body (lit "Unknown tool requested:") [VString (name request)]].

End LogReference.

(** ** Trimmed text and document order *)

(** No white space at either end. *)
Definition Trimmed (s : jsstring) : Prop :=
  (forall c r, s = c :: r -> isWhiteSpace c = false)
  /\ (forall r c, s = r ++ [c] -> isWhiteSpace c = false).

(** Document order on positions: an ancestor comes before its
    descendants, the subtree of an elder sibling before the subtree of a
    younger one. *)
Fixpoint path_lt (p q : path) : bool :=
  match p, q with
  | [], [] => false
  | [], _ :: _ => true
  | _ :: _, [] => false
  | i :: p', j :: q' => (i <? j) || ((i =? j) && path_lt p' q')
  end.

Definition before (a b : Elem) : Prop := path_lt (loc a) (loc b) = true.

(** Every element of the list is [R]-related to all the later ones. *)
Fixpoint OrderedBy {A : Type} (R : A -> A -> Prop) (l : list A) : Prop :=
  match l with
  | [] => True
  | a :: l' => (forall b, In b l' -> R a b) /\ OrderedBy R l'
  end.

(** The element has a container among its proper ancestors. *)
Definition below_container (doc : Document) (e : Elem) : bool :=
  existsb (fun c => matches sel_containers c && ancestor_path (loc c) (loc e))
          (all_elements doc).

(** ** The verbose copy *)

Section VerboseReference.
Context {V : Verbose.VerbosePlatform}.

(** [path.join(process.env.HOME, 'mcp-substack-debug.log')] *)
Definition log_path (h : Verbose.Host) : JsError + jsstring :=
  Verbose.path_join (Verbose.HOME h) (lit "mcp-substack-debug.log").

(** The error an attempt to log raises in [h], if any: that of
    [path.join], or that of the file system for the log file. *)
Definition log_failure (h : Verbose.Host) : option JsError :=
  match log_path h with
  | inl e => Some e
  | inr p => Verbose.fs_fault h p
  end.

(** The line [debug(message, ...args)] writes in [h]. *)
Definition verbose_line (message : jsstring) (args : list Verbose.LogValue)
           (h : Verbose.Host) : jsstring :=
  lit "[" ++ clock (Verbose.std h) (reads (Verbose.std h)) ++ lit "] DEBUG: "
  ++ message ++ lit " " ++ join (lit " ") (map Verbose.render args) ++ [LF].

(** [h'] is [h] after some lines were logged: the lines are at the end of
    [stderr] and, in the same order, at the end of the log file; one
    clock reading was taken for each; nothing else has changed. *)
Definition Mirrors (h h' : Verbose.Host) : Prop :=
  Verbose.HOME h' = Verbose.HOME h
  /\ Verbose.fs_fault h' = Verbose.fs_fault h
  /\ clock (Verbose.std h') = clock (Verbose.std h)
  /\ exists lines,
      stderr (Verbose.std h') = stderr (Verbose.std h) ++ lines
      /\ reads (Verbose.std h') = reads (Verbose.std h) + length lines
      /\ forall p,
          log_path h = inr p ->
          Verbose.read_file (Verbose.files h') p
          = Verbose.read_file (Verbose.files h) p ++ concat lines
          /\ forall q, q <> p ->
                       Verbose.read_file (Verbose.files h') q
                       = Verbose.read_file (Verbose.files h) q.

(** A run from [h] ends with a completion and a host that satisfy [Q]. *)
Definition runs {A} (m : Verbose.Eff A) (h : Verbose.Host)
           (Q : Completion A -> Verbose.Host -> Prop) : Prop :=
  Q (Verbose.result m h) (Verbose.after m h).

(** The result of the verbose pass for a loaded document. *)
Definition verbose_article (doc : Document) : ToolResult :=
  if hasSubstackMarkers doc
  then
    match extract_content doc with
    | [] => failure Verbose.MSG_SUBSCRIBER_ONLY
    | _ :: _ =>
        success (success_text (extract_title doc) (extract_author doc)
                              (extract_subtitle doc) (extract_content doc))
    end
  else failure Verbose.MSG_NOT_SUBSTACK.

(** The value of a call of the verbose handler when logging works. *)
Definition verbose_reply (request : Request) : Completion ToolResult :=
  if str_eqb (name request) (lit "download_substack")
  then
    Normal
      (if admissible (url request)
       then
         match fetched (url request) with
         | inl err =>
             failure (lit "Error processing Substack post: " ++ err_message err)
         | inr html => verbose_article (cheerio_load html)
         end
       else failure Verbose.MSG_INVALID_URL)
  else Throw (Error (lit "Unknown tool: " ++ name request)).

End VerboseReference.

(* ================================================================== *)
(** * Sample inputs *)
(* ================================================================== *)

(** [new URL] on the strings used below, as the WHATWG parser answers;
    any other string stands for one it rejects. *)
Definition sample_URL_new (s : jsstring) : JsError + URL :=
  if str_eqb s (lit "https://foo.substack.com/p/my-post")
  then inr (mkURL (lit "foo.substack.com") (lit "/p/my-post"))
  else if str_eqb s (lit "https://foo.substack.com/about")
  then inr (mkURL (lit "foo.substack.com") (lit "/about"))
  else if str_eqb s (lit "https://blog.example.com/p/my-article")
  then inr (mkURL (lit "blog.example.com") (lit "/p/my-article"))
  else if str_eqb s (lit "https://example.com/about")
  then inr (mkURL (lit "example.com") (lit "/about"))
  else if str_eqb s (lit "https://substack.com/about")
  then inr (mkURL (lit "substack.com") (lit "/about"))
  else if str_eqb s (lit "https://evilsubstack.com/")
  then inr (mkURL (lit "evilsubstack.com") (lit "/"))
  else inl (mkError (lit "TypeError") (lit "Invalid URL")).

(** A platform on which every fetch answers 200 and the page parses to
    [doc]. *)
Definition sample_platform (doc : Document) : Platform :=
  {| URL_new := sample_URL_new;
     fetch := fun _ => inr (mkResponse 200 (inr (lit "<html>")));
     cheerio_load := fun _ => doc;
     JSON_stringify := fun _ => lit "{}" |}.

(** A platform whose network is down. *)
Definition offline_platform : Platform :=
  {| URL_new := sample_URL_new;
     fetch := fun _ => inl (mkError (lit "FetchError") (lit "connect ECONNREFUSED"));
     cheerio_load := fun _ => [];
     JSON_stringify := fun _ => lit "{}" |}.

Definition sample_world : World :=
  mkWorld (fun _ => lit "2024-01-01T00:00:00.000Z") 0 [].

Definition html_page (head body : list node) : Document :=
  [Element (lit "html") []
     [Element (lit "head") [] head; Element (lit "body") [] body]].

(** [<meta content="substack..."> <h1>My Title</h1>
     <div class="post-content"><p>Hello</p></div>] *)
Definition scenario1_doc : Document :=
  html_page
    [Element (lit "meta") [(lit "content", lit "substack...")] []]
    [Element (lit "h1") [] [Text (lit "My Title")];
     Element (lit "div") [(lit "class", lit "post-content")]
       [Element (lit "p") [] [Text (lit "Hello")]]].

(** Two elements of class [subtitle]. *)
Definition two_subtitles_doc : Document :=
  html_page
    [Element (lit "meta") [(lit "content", lit "substack")] []]
    [Element (lit "h3") [(lit "class", lit "subtitle")] [Text (lit "One")];
     Element (lit "h3") [(lit "class", lit "subtitle")] [Text (lit "Two")];
     Element (lit "div") [(lit "class", lit "post-content")]
       [Element (lit "p") [] [Text (lit "Hello")]]].

(** A marked page whose container holds a banner and no block. *)
Definition banner_only_doc : Document :=
  html_page []
    [Element (lit "h1") [] [Text (lit "My Title")];
     Element (lit "span") [(lit "class", lit "author-name")] [Text (lit "Ann")];
     Element (lit "div") [(lit "class", lit "post-content")]
       [Element (lit "div") [(lit "class", lit "subscriber-only")]
          [Text (lit "Subscribe to read")]]].

(** A marked page whose only blocks are blank:
    [<div class="post-content"><p> </p><h2></h2></div>]. *)
Definition blank_blocks_doc : Document :=
  html_page []
    [Element (lit "h1") [] [Text (lit "My Title")];
     Element (lit "div") [(lit "class", lit "post-content")]
       [Element (lit "p") [] [Text (lit " ")];
        Element (lit "h2") [] []]].

(** A page without any marker. *)
Definition plain_doc : Document :=
  html_page []
    [Element (lit "h1") [] [Text (lit "About")];
     Element (lit "article") [] [Element (lit "p") [] [Text (lit "Hi")]]].

(** The requests of the scenarios. *)
Definition scenario1_request : Request :=
  mkRequest (lit "download_substack") (lit "https://foo.substack.com/p/my-post").

Definition unknown_request : Request :=
  mkRequest (lit "upload_substack") (lit "https://foo.substack.com/p/my-post").

(** A verbose platform over [sample_platform]: [path.join] glues with a
    slash and throws without a home directory. *)
Definition sample_verbose (doc : Document) : Verbose.VerbosePlatform :=
  {| Verbose.plain := sample_platform doc;
     Verbose.statusText := fun _ => lit "OK";
     Verbose.headers := fun _ => [(lit "content-type", lit "text/html")];
     Verbose.stack := fun _ => lit "Error at fetch";
     Verbose.path_join :=
       fun home file =>
         match home with
         | Some dir => inr (dir ++ lit "/" ++ file)
         | None => inl (mkError (lit "TypeError")
                                (lit "The path argument must be of type string"))
         end;
     Verbose.JSON_stringify_pretty := fun _ => lit "{}";
     Verbose.Number_toString := fun _ => lit "0" |}.

Definition offline_verbose : Verbose.VerbosePlatform :=
  {| Verbose.plain := offline_platform;
     Verbose.statusText := fun _ => lit "";
     Verbose.headers := fun _ => [];
     Verbose.stack := fun _ => lit "";
     Verbose.path_join := fun _ file => inr file;
     Verbose.JSON_stringify_pretty := fun _ => lit "{}";
     Verbose.Number_toString := fun _ => lit "0" |}.

(** A host with a home directory and a writable file system. *)
Definition sample_host : Verbose.Host :=
  Verbose.mkHost sample_world (Some (lit "/home/user")) [] (fun _ => None).

(** A host without [HOME]. *)
Definition homeless_host : Verbose.Host :=
  Verbose.mkHost sample_world None [] (fun _ => None).

(* ================================================================== *)
(** * Properties of the string primitives *)
(* ================================================================== *)

Lemma str_eqb_eq (a b : jsstring) : str_eqb a b = true <-> a = b.
Proof.
  revert b; induction a as [|x a IH]; intros [|y b]; simpl;
    try (split; [discriminate | congruence]); try tauto.
  rewrite andb_true_iff, N.eqb_eq, IH.
  split; [intros [-> ->]; reflexivity | intros E; injection E; auto].
Qed.

Lemma str_eqb_refl (a : jsstring) : str_eqb a a = true.
Proof. apply str_eqb_eq; reflexivity. Qed.

Lemma str_eqb_neq (a b : jsstring) : str_eqb a b = false <-> a <> b.
Proof.
  rewrite <- str_eqb_eq. destruct (str_eqb a b); split; congruence.
Qed.

(** [startsWith] decides "has [t] as a prefix". *)
Lemma startsWith_spec (s t : jsstring) :
  startsWith s t = true <-> exists rest, s = t ++ rest.
Proof.
  revert s; induction t as [|c t IH]; intros s; simpl.
  - split; [intros _; exists s; reflexivity | reflexivity].
  - destruct s as [|d s].
    + split; [discriminate | intros [r E]; discriminate E].
    + rewrite andb_true_iff, N.eqb_eq, IH. split.
      * intros [-> [r ->]]. exists r; reflexivity.
      * intros [r E]. injection E as -> ->. split; [reflexivity | eauto].
Qed.

Lemma skipn_length_app (A : Type) (pre t : list A) :
  skipn (length pre) (pre ++ t) = t.
Proof. induction pre; simpl; auto. Qed.

(** [endsWith] decides "has [t] as a suffix". *)
Lemma endsWith_spec (s t : jsstring) :
  endsWith s t = true <-> exists pre, s = pre ++ t.
Proof.
  unfold endsWith. split.
  - destruct (Nat.leb_spec (length t) (length s)) as [L|L]; [|discriminate].
    intros E. apply str_eqb_eq in E.
    exists (firstn (length s - length t) s).
    rewrite <- (firstn_skipn (length s - length t) s) at 1.
    rewrite E. reflexivity.
  - intros [pre ->]. rewrite length_app.
    replace (length pre + length t - length t) with (length pre) by lia.
    rewrite skipn_length_app, str_eqb_refl.
    destruct (Nat.leb_spec (length t) (length pre + length t)); [reflexivity | lia].
Qed.

(** [includes] decides "has [t] as a substring". *)
Lemma includes_spec (s t : jsstring) :
  includes s t = true <-> exists pre post, s = pre ++ t ++ post.
Proof.
  induction s as [|d s IH]; simpl; rewrite orb_true_iff, startsWith_spec.
  - split.
    + intros [[r E]|F]; [|discriminate]. exists [], r. exact E.
    + intros [pre [post E]]. left.
      destruct pre; simpl in E; [eauto | discriminate].
  - rewrite IH. split.
    + intros [[r E]|[pre [post E]]].
      * exists [], r. exact E.
      * exists (d :: pre), post. simpl. congruence.
    + intros [[|x pre] [post E]]; simpl in E.
      * left; eauto.
      * right. injection E as _ E. eauto.
Qed.

Lemma takeClass_all cls (s : jsstring) :
  forall c, In c (takeClass cls s) -> cls c = true.
Proof.
  induction s as [|d s IH]; simpl; [tauto|].
  destruct (cls d) eqn:E; simpl; [|tauto].
  intros c [<-|H]; auto.
Qed.

Lemma takeClass_prefix cls (s : jsstring) :
  exists rest, s = takeClass cls s ++ rest.
Proof.
  induction s as [|d s [r IH]]; simpl; [exists []; reflexivity|].
  destruct (cls d).
  - exists r. simpl. congruence.
  - exists (d :: s). reflexivity.
Qed.

Lemma test_p_slug_spec (s : jsstring) :
  test_p_slug s = true <-> PostPath s.
Proof.
  unfold test_p_slug, PostPath.
  rewrite andb_true_iff, startsWith_spec, Nat.leb_le. split.
  - intros [[r ->] L].
    change (skipn 3 (lit "/p/" ++ r)) with r in L.
    destruct (takeClass_prefix isWordOrHyphen r) as [rest E].
    exists (takeClass isWordOrHyphen r), rest. repeat split.
    + congruence.
    + intros Z. rewrite Z in L. simpl in L. lia.
    + apply takeClass_all.
  - intros [slug [rest [-> [NE A]]]]. split; [eauto|].
    change (skipn 3 (lit "/p/" ++ slug ++ rest)) with (slug ++ rest).
    destruct slug as [|c slug]; [congruence|].
    simpl. rewrite (A c (or_introl eq_refl)). simpl. lia.
Qed.

(* ================================================================== *)
(** * Running the monad *)
(* ================================================================== *)

Section Run.
Context {P : Platform}.

Lemma debug_normal message args w : result (debug message args) w = Normal tt.
Proof. reflexivity. Qed.

Lemma result_debug_seq A message args (k : Eff A) w :
  result (debug message args ;; k) w = result k (after (debug message args) w).
Proof. reflexivity. Qed.

(** [validateUrl] on a string the URL parser accepts: the value of
    [isValidUrl]. *)
Lemma validateUrl_parsed url parsed w :
  URL_new url = inr parsed ->
  result (validateUrl url) w =
  Normal (endsWith (hostname parsed) (lit ".substack.com")
          || test_p_slug (pathname parsed)).
Proof.
  intros E. unfold result, validateUrl, try_catch, bind, call. rewrite E.
  unfold ret.
  destruct (endsWith (hostname parsed) (lit ".substack.com")
            || test_p_slug (pathname parsed)); reflexivity.
Qed.

(** [validateUrl] on a string the URL parser rejects. *)
Lemma validateUrl_unparsed url e w :
  URL_new url = inl e ->
  result (validateUrl url) w = Normal false.
Proof.
  intros E. unfold result, validateUrl, try_catch, bind, call. rewrite E.
  reflexivity.
Qed.

(** [validateUrl] never throws. *)
Lemma validateUrl_total url w :
  exists b, result (validateUrl url) w = Normal b.
Proof.
  destruct (URL_new url) as [e|parsed] eqn:E.
  - exists false. eapply validateUrl_unparsed; eauto.
  - eexists. eapply validateUrl_parsed; eauto.
Qed.

End Run.

(* ================================================================== *)
(** * The URL check *)
(* ================================================================== *)

(** On a parsed URL the value of [validateUrl] is decided by the two
    rules. *)
Lemma validateUrl_decides {P : Platform}
      (url : jsstring) (parsed : URL) (w : World) :
  URL_new url = inr parsed ->
  (result (validateUrl url) w = Normal true
   <-> SubstackHost (hostname parsed) \/ PostPath (pathname parsed))
  /\ (result (validateUrl url) w = Normal false
      <-> ~ (SubstackHost (hostname parsed) \/ PostPath (pathname parsed))).
Proof.
  intros E. rewrite (validateUrl_parsed url parsed w E).
  assert (R : endsWith (hostname parsed) (lit ".substack.com")
              || test_p_slug (pathname parsed) = true
              <-> SubstackHost (hostname parsed) \/ PostPath (pathname parsed)).
  { rewrite orb_true_iff. unfold SubstackHost.
    rewrite <- endsWith_spec, <- test_p_slug_spec. tauto. }
  destruct (endsWith (hostname parsed) (lit ".substack.com")
            || test_p_slug (pathname parsed)).
  - assert (Y : SubstackHost (hostname parsed) \/ PostPath (pathname parsed))
      by (apply R; reflexivity).
    split; split; auto; try discriminate.
    intros N. destruct (N Y).
  - assert (N : ~ (SubstackHost (hostname parsed) \/ PostPath (pathname parsed)))
      by (intros Y; apply R in Y; discriminate Y).
    split; split; auto; try discriminate.
    intros Y. destruct (N Y).
Qed.

(** C1. On a string the URL parser accepts, [validateUrl] returns [true]
    exactly when the host name ends with [.substack.com] or the path
    starts with [/p/] followed by at least one word character or hyphen,
    and [false] otherwise.  In particular a [.substack.com] host is enough
    whatever the path, and a [/p/<slug>] path is enough whatever the
    host. *)
Theorem validateUrl_admissible_iff {P : Platform}
        (url : jsstring) (parsed : URL) (w : World) :
  URL_new url = inr parsed ->
  (result (validateUrl url) w = Normal true
   <-> SubstackHost (hostname parsed) \/ PostPath (pathname parsed))
  /\ (result (validateUrl url) w = Normal false
      <-> ~ (SubstackHost (hostname parsed) \/ PostPath (pathname parsed)))
  /\ (SubstackHost (hostname parsed) ->
      result (validateUrl url) w = Normal true)
  /\ (PostPath (pathname parsed) ->
      result (validateUrl url) w = Normal true).
Proof.
  intros E. destruct (validateUrl_decides url parsed w E) as [T F].
  split; [exact T|]. split; [exact F|].
  split; intros H; apply T; [left | right]; exact H.
Qed.

Lemma validateUrl_admissible_iff_witness :
  result (@validateUrl (sample_platform [])
                       (lit "https://foo.substack.com/about")) sample_world
  = Normal true.
Proof.
  apply (proj1 (proj2 (proj2
           (@validateUrl_admissible_iff (sample_platform [])
              (lit "https://foo.substack.com/about")
              (mkURL (lit "foo.substack.com") (lit "/about"))
              sample_world eq_refl)))).
  exists (lit "foo"). reflexivity.
Defined.

(** C5. On a string the URL parser rejects, [validateUrl] returns
    [false]; the exception is caught inside, and on no string at all does
    [validateUrl] complete by throwing. *)
Theorem validateUrl_malformed_false {P : Platform}
        (url : jsstring) (e : JsError) (w : World) :
  URL_new url = inl e ->
  result (validateUrl url) w = Normal false
  /\ forall url' w' e', result (validateUrl url') w' <> Throw e'.
Proof.
  intros E. split.
  - eapply validateUrl_unparsed; eauto.
  - intros url' w' e' T. destruct (validateUrl_total url' w') as [b B].
    congruence.
Qed.

Lemma validateUrl_malformed_false_witness :
  result (@validateUrl (sample_platform []) (lit "not a url")) sample_world
  = Normal false.
Proof.
  apply (proj1 (@validateUrl_malformed_false (sample_platform [])
                  (lit "not a url")
                  (mkError (lit "TypeError") (lit "Invalid URL"))
                  sample_world eq_refl)).
Defined.

Lemma undotted_host_not_substack (pre : jsstring) :
  (forall pre', pre <> pre' ++ lit ".") ->
  ~ SubstackHost (pre ++ lit "substack.com").
Proof.
  intros ND [sub E].
  change (lit ".substack.com") with (lit "." ++ lit "substack.com") in E.
  rewrite app_assoc in E. apply app_inv_tail in E. exact (ND _ E).
Qed.

(** C9. The host rule needs the dot.  When the path is not a [/p/<slug>]
    path, [validateUrl] returns [true] only for a host name of the form
    [<sub>.substack.com]; it returns [false] for the host [substack.com]
    and for every host that ends in [substack.com] without a dot in front
    of it. *)
Theorem validateUrl_requires_dot {P : Platform}
        (url : jsstring) (parsed : URL) (w : World) :
  URL_new url = inr parsed ->
  ~ PostPath (pathname parsed) ->
  (result (validateUrl url) w = Normal true <-> SubstackHost (hostname parsed))
  /\ (hostname parsed = lit "substack.com" ->
      result (validateUrl url) w = Normal false)
  /\ (forall pre,
        hostname parsed = pre ++ lit "substack.com" ->
        (forall pre', pre <> pre' ++ lit ".") ->
        result (validateUrl url) w = Normal false).
Proof.
  intros E NP.
  destruct (validateUrl_decides url parsed w E) as [T F].
  split; [rewrite T; tauto|].
  assert (G : forall pre,
             hostname parsed = pre ++ lit "substack.com" ->
             (forall pre', pre <> pre' ++ lit ".") ->
             result (validateUrl url) w = Normal false).
  { intros pre H ND. apply F. intros [S|S]; [|tauto].
    rewrite H in S. exact (undotted_host_not_substack pre ND S). }
  split; [|exact G].
  intros H. apply (G []); [exact H|].
  intros [|c pre']; discriminate.
Qed.

Lemma validateUrl_requires_dot_witness :
  result (@validateUrl (sample_platform [])
                       (lit "https://evilsubstack.com/")) sample_world
  = Normal false.
Proof.
  refine (proj2 (proj2
            (@validateUrl_requires_dot (sample_platform [])
               (lit "https://evilsubstack.com/")
               (mkURL (lit "evilsubstack.com") (lit "/"))
               sample_world eq_refl _)) (lit "evil") eq_refl _).
  - intros [slug [rest [E _]]]. discriminate E.
  - intros pre' E.
    apply (f_equal (@rev N)) in E. rewrite rev_app_distr in E.
    discriminate E.
Defined.

(* ================================================================== *)
(** * What the selectors select *)
(* ================================================================== *)

Lemma end_ok_spec (post : jsstring) :
  match post with [] => true | d :: _ => isWhiteSpace d end = true
  <-> post = [] \/ exists d post', post = d :: post' /\ isWhiteSpace d = true.
Proof.
  destruct post as [|d post]; split; auto.
  - intros H. right. eauto.
  - intros [H|[d' [p' [E H]]]]; [discriminate|]. injection E as -> _. exact H.
Qed.

Lemma wordMatch_spec (v c : jsstring) : forall b,
  wordMatch b v c = true <->
  exists pre post,
    v = pre ++ c ++ post
    /\ (pre = [] /\ b = true
        \/ exists pre' d, pre = pre' ++ [d] /\ isWhiteSpace d = true)
    /\ (post = [] \/ exists d post', post = d :: post' /\ isWhiteSpace d = true).
Proof.
  assert (Head : forall b v,
    b && startsWith v c &&
    match skipn (length c) v with [] => true | d :: _ => isWhiteSpace d end = true
    <-> exists post, v = c ++ post /\ b = true
        /\ (post = [] \/ exists d post', post = d :: post' /\ isWhiteSpace d = true)).
  { intros b v0. rewrite !andb_true_iff, startsWith_spec. split.
    - intros [[B [r ->]] K]. rewrite skipn_length_app in K.
      exists r. rewrite <- end_ok_spec. auto.
    - intros [post [-> [B K]]]. rewrite skipn_length_app, end_ok_spec. eauto. }
  induction v as [|x v IH]; intros b.
  - cbn [wordMatch]. rewrite orb_false_r, Head. split.
    + intros [post [E [B K]]]. exists [], post. auto.
    + intros [pre [post [E [[[-> B] | [pre' [d [-> _]]]] K]]]].
      * eauto.
      * destruct pre'; discriminate E.
  - cbn [wordMatch]. rewrite orb_true_iff, Head, IH. split.
    + intros [[post [E [B K]]] | [pre [post [E [L K]]]]].
      * exists [], post. auto.
      * exists (x :: pre), post. split; [simpl; congruence|]. split; [|exact K].
        right. destruct L as [[-> W] | [pre' [d [-> W]]]].
        -- exists [], x. auto.
        -- exists (x :: pre'), d. auto.
    + intros [pre [post [E [[[-> B] | [pre' [d [-> W]]]] K]]]].
      * left. eauto.
      * right. destruct pre' as [|y pre']; simpl in E; injection E as -> E.
        -- exists [], post. auto.
        -- exists (pre' ++ [d]), post. split; [exact E|]. split; [|exact K].
           right. eauto.
Qed.

Lemma wordMatch_WordOf (v c : jsstring) :
  wordMatch true v c = true <-> WordOf v c.
Proof.
  rewrite wordMatch_spec. unfold WordOf.
  split; intros [pre [post [E [L K]]]]; exists pre, post; intuition.
Qed.

Lemma by_class_spec (e : Elem) (c : jsstring) :
  matches [[ByClass c]] e = true <-> HasClass e c.
Proof.
  unfold matches, HasClass. cbn [existsb forallb matches_simple].
  rewrite orb_false_r, andb_true_r.
  destruct (getAttributeValue (attrs e) (lit "class")) as [v|].
  - rewrite wordMatch_WordOf. split.
    + eauto.
    + intros [v' [E W]]. congruence.
  - split; [discriminate | intros [v [E _]]; discriminate].
Qed.

Lemma by_tag_attr_spec (e : Elem) (t a x : jsstring) :
  matches [[ByTag t; AttrContains a x]] e = true
  <-> tagName e = t /\ AttrHas e a x.
Proof.
  unfold matches, AttrHas. cbn [existsb forallb matches_simple].
  rewrite orb_false_r, andb_true_r, andb_true_iff, str_eqb_eq.
  destruct (getAttributeValue (attrs e) a) as [v|].
  - rewrite includes_spec. unfold Contains. split.
    + intros [T I]. eauto.
    + intros [T [v' [E I]]]. injection E as ->. auto.
  - split; [intros [_ F]; discriminate | intros [_ [v [E _]]]; discriminate].
Qed.

Lemma nonempty_filter (A : Type) (f : A -> bool) (l : list A) :
  (0 <? length (filter f l)) = true <-> exists x, In x l /\ f x = true.
Proof.
  rewrite Nat.ltb_lt. split.
  - destruct (filter f l) as [|x r] eqn:E; simpl; [lia|]. intros _.
    exists x. apply filter_In. rewrite E. left; reflexivity.
  - intros [x H]. apply filter_In in H.
    destruct (filter f l); [contradiction | simpl; lia].
Qed.

(** The marker test of lines 99-104 holds exactly on the marked
    documents. *)
Lemma hasSubstackMarkers_spec (doc : Document) :
  hasSubstackMarkers doc = true <-> Marked doc.
Proof.
  unfold hasSubstackMarkers, Marked, query.
  rewrite !orb_true_iff, !nonempty_filter. split.
  - intros [[[[e [I M]] | [e [I M]]] | [e [I M]]] | [e [I M]]]; exists e; split; auto.
    + apply by_tag_attr_spec in M. destruct M. apply marker_meta; auto.
    + apply by_tag_attr_spec in M. destruct M. apply marker_script; auto.
    + apply by_class_spec in M. apply marker_post_content; auto.
    + apply by_class_spec in M. apply marker_subscriber_only; auto.
  - intros [e [I [T A|T A|C|C]]].
    + left; left; left. exists e. split; auto. apply by_tag_attr_spec; auto.
    + left; left; right. exists e. split; auto. apply by_tag_attr_spec; auto.
    + left; right. exists e. split; auto. apply by_class_spec; auto.
    + right. exists e. split; auto. apply by_class_spec; auto.
Qed.

Lemma hasSubstackMarkers_false (doc : Document) :
  hasSubstackMarkers doc = false <-> ~ Marked doc.
Proof.
  rewrite <- hasSubstackMarkers_spec.
  destruct (hasSubstackMarkers doc); split; congruence.
Qed.

(* ================================================================== *)
(** * The shape of a document *)
(* ================================================================== *)

(** Induction on nodes, with the hypothesis for every child. *)
Lemma node_induction (Q : node -> Prop) :
  (forall d, Q (Text d)) ->
  (forall d, Q (Comment d)) ->
  (forall t a cs, (forall c, In c cs -> Q c) -> Q (Element t a cs)) ->
  forall n, Q n.
Proof.
  intros HT HC HE. fix IH 1. intros [d|d|t a cs]; [apply HT | apply HC |].
  apply HE. induction cs as [|c cs IHcs]; simpl.
  - intros c [].
  - intros c' [<-|I]; [apply IH | apply IHcs, I].
Qed.

Lemma in_concat_mapi (A B : Type) (f : nat -> A -> list B) (l : list A) :
  forall i x,
    In x (concat (mapi_from f i l))
    <-> exists j a, nth_error l j = Some a /\ In x (f (i + j) a).
Proof.
  induction l as [|a l IH]; intros i x; simpl.
  - split; [tauto | intros [[|j] [a [E _]]]; discriminate E].
  - rewrite in_app_iff, IH. split.
    + intros [H|[j [b [E H]]]].
      * exists 0, a. rewrite Nat.add_0_r. auto.
      * exists (S j), b. rewrite Nat.add_succ_r. auto.
    + intros [[|j] [b [E H]]]; simpl in E.
      * injection E as <-. rewrite Nat.add_0_r in H. auto.
      * right. exists j, b. rewrite Nat.add_succ_r in H. auto.
Qed.

Lemma subtree_element p t a cs :
  subtree p (Element t a cs) = mkElem p t a cs :: forest p cs.
Proof. reflexivity. Qed.

(** An element of a forest lies in the subtree of one of the roots. *)
Lemma in_forest p cs e :
  In e (forest p cs)
  <-> exists j c, nth_error cs j = Some c /\ In e (subtree (p ++ [j]) c).
Proof. unfold forest. rewrite in_concat_mapi. reflexivity. Qed.

Lemma in_child_elems c k :
  In k (child_elems c)
  <-> exists j t a cs,
      nth_error (childNodes c) j = Some (Element t a cs)
      /\ k = mkElem (loc c ++ [j]) t a cs.
Proof.
  unfold child_elems. rewrite in_concat_mapi. simpl. split.
  - intros [j [[d|d|t a cs] [E I]]]; simpl in I; try contradiction.
    destruct I as [<-|[]]. exists j, t, a, cs. auto.
  - intros [j [t [a [cs [E ->]]]]]. exists j, (Element t a cs).
    split; [exact E | left; reflexivity].
Qed.

(** The subtree of a child of [c] lies below [c]. *)
Lemma child_subtree_below c k :
  In k (child_elems c) ->
  incl (self_and_descendants k) (forest (loc c) (childNodes c)).
Proof.
  intros K e I. apply in_child_elems in K.
  destruct K as [j [t [a [cs [E ->]]]]].
  apply in_forest. exists j, (Element t a cs). split; [exact E|].
  rewrite subtree_element. exact I.
Qed.

(** Every element below [c] is in the subtree of a child of [c]. *)
Lemma below_child_subtree c e :
  In e (forest (loc c) (childNodes c)) ->
  exists k, In k (child_elems c) /\ In e (self_and_descendants k).
Proof.
  intros I. apply in_forest in I. destruct I as [j [[d|d|t a cs] [E I]]];
    try contradiction.
  exists (mkElem (loc c ++ [j]) t a cs). split.
  - apply in_child_elems. exists j, t, a, cs. auto.
  - rewrite subtree_element in I. exact I.
Qed.

(** The position of an element of a subtree extends the position of the
    root. *)
Lemma subtree_loc n : forall p e,
  In e (subtree p n) -> exists s, loc e = p ++ s.
Proof.
  induction n as [d|d|t a cs IH] using node_induction; intros p e I;
    try contradiction.
  rewrite subtree_element in I. destruct I as [<-|I].
  - exists []. symmetry. apply app_nil_r.
  - apply in_forest in I. destruct I as [j [c [E I]]].
    destruct (IH c (nth_error_In _ _ E) _ _ I) as [s L].
    exists (j :: s). rewrite L, <- app_assoc. reflexivity.
Qed.

Lemma forest_loc p cs e :
  In e (forest p cs) ->
  exists j c s, nth_error cs j = Some c /\ In e (subtree (p ++ [j]) c)
                /\ loc e = p ++ j :: s.
Proof.
  intros I. apply in_forest in I. destruct I as [j [c [E I]]].
  destruct (subtree_loc _ _ _ I) as [s L].
  exists j, c, s. rewrite L, <- app_assoc. auto.
Qed.

(** Being below is transitive: what is below an element of a subtree is
    in the subtree. *)
Lemma subtree_closed n : forall p c e,
  In c (subtree p n) ->
  In e (forest (loc c) (childNodes c)) ->
  In e (subtree p n).
Proof.
  induction n as [d|d|t a cs IH] using node_induction; intros p c e C I;
    try contradiction.
  rewrite subtree_element in C |- *. destruct C as [<-|C].
  - right. exact I.
  - right. apply in_forest in C. destruct C as [j [c' [E C]]].
    apply in_forest. exists j, c'. split; [exact E|].
    exact (IH c' (nth_error_In _ _ E) _ _ _ C I).
Qed.

Lemma forest_closed p cs c e :
  In c (forest p cs) ->
  In e (forest (loc c) (childNodes c)) ->
  In e (forest p cs).
Proof.
  intros C I. apply in_forest in C. destruct C as [j [c' [E C]]].
  apply in_forest. exists j, c'. split; [exact E|].
  exact (subtree_closed _ _ _ _ C I).
Qed.

(** [ancestor_path] decides "is a proper prefix of". *)
Lemma ancestor_path_spec (p q : path) :
  ancestor_path p q = true <-> exists i s, q = p ++ i :: s.
Proof.
  revert q; induction p as [|i p IH]; intros [|j q]; simpl.
  - split; [discriminate | intros [i [s E]]; discriminate E].
  - split; [intros _; exists j, q; reflexivity | reflexivity].
  - split; [discriminate | intros [k [s E]]; discriminate E].
  - rewrite andb_true_iff, Nat.eqb_eq, IH. split.
    + intros [-> [k [s ->]]]. exists k, s. reflexivity.
    + intros [k [s E]]. injection E as -> ->. split; [reflexivity | eauto].
Qed.

Lemma app_cons_neq (A : Type) (p s : list A) (i : A) : p <> p ++ i :: s.
Proof.
  intros E. apply (f_equal (@length A)) in E.
  rewrite length_app in E. simpl in E. lia.
Qed.

(** Inside one subtree a position names one element. *)
Lemma subtree_loc_inj n : forall p e1 e2,
  In e1 (subtree p n) -> In e2 (subtree p n) ->
  loc e1 = loc e2 -> e1 = e2.
Proof.
  induction n as [d|d|t a cs IH] using node_induction; intros p e1 e2 I1 I2 L;
    try contradiction.
  rewrite subtree_element in I1, I2.
  destruct I1 as [<-|I1], I2 as [<-|I2].
  - reflexivity.
  - exfalso. destruct (forest_loc _ _ _ I2) as [j [c [s [_ [_ E]]]]].
    rewrite E in L. simpl in L. exact (app_cons_neq _ _ _ _ L).
  - exfalso. destruct (forest_loc _ _ _ I1) as [j [c [s [_ [_ E]]]]].
    rewrite E in L. simpl in L. symmetry in L. exact (app_cons_neq _ _ _ _ L).
  - destruct (forest_loc _ _ _ I1) as [j1 [c1 [s1 [E1 [S1 L1]]]]].
    destruct (forest_loc _ _ _ I2) as [j2 [c2 [s2 [E2 [S2 L2]]]]].
    assert (J := L). rewrite L1, L2 in J. apply app_inv_head in J.
    injection J as -> _.
    rewrite E1 in E2. injection E2 as <-.
    exact (IH c1 (nth_error_In _ _ E1) _ _ _ S1 S2 L).
Qed.

(** Inside one subtree, an element whose position properly extends the
    position of another lies below it. *)
Lemma subtree_ancestor n : forall p c e,
  In c (subtree p n) -> In e (subtree p n) ->
  ancestor_path (loc c) (loc e) = true ->
  In e (forest (loc c) (childNodes c)).
Proof.
  induction n as [d|d|t a cs IH] using node_induction; intros p c e C I A;
    try contradiction.
  apply ancestor_path_spec in A. destruct A as [i [s A]].
  rewrite subtree_element in C, I.
  destruct C as [<-|C], I as [<-|I]; simpl in *.
  - exfalso. exact (app_cons_neq _ _ _ _ A).
  - exact I.
  - exfalso. destruct (forest_loc _ _ _ C) as [j [c' [s' [_ [_ E]]]]].
    rewrite E, <- app_assoc in A. exact (app_cons_neq _ _ _ _ A).
  - destruct (forest_loc _ _ _ C) as [j1 [c1 [s1 [E1 [S1 L1]]]]].
    destruct (forest_loc _ _ _ I) as [j2 [c2 [s2 [E2 [S2 L2]]]]].
    rewrite L1, L2, <- app_assoc in A. apply app_inv_head in A.
    simpl in A. injection A as -> A.
    rewrite E1 in E2. injection E2 as <-.
    apply (IH c1 (nth_error_In _ _ E1) _ _ _ S1 S2).
    apply ancestor_path_spec. exists i, s.
    rewrite L1, L2, A, <- app_assoc. reflexivity.
Qed.

Lemma forest_loc_inj p cs e1 e2 :
  In e1 (forest p cs) -> In e2 (forest p cs) ->
  loc e1 = loc e2 -> e1 = e2.
Proof.
  intros I1 I2 L.
  destruct (forest_loc _ _ _ I1) as [j1 [c1 [s1 [E1 [S1 L1]]]]].
  destruct (forest_loc _ _ _ I2) as [j2 [c2 [s2 [E2 [S2 L2]]]]].
  assert (J := L). rewrite L1, L2 in J. apply app_inv_head in J.
  injection J as -> _.
  rewrite E1 in E2. injection E2 as <-.
  exact (subtree_loc_inj _ _ _ _ S1 S2 L).
Qed.

Lemma forest_ancestor p cs c e :
  In c (forest p cs) -> In e (forest p cs) ->
  ancestor_path (loc c) (loc e) = true ->
  In e (forest (loc c) (childNodes c)).
Proof.
  intros C I A.
  destruct (forest_loc _ _ _ C) as [j1 [c1 [s1 [E1 [S1 L1]]]]].
  destruct (forest_loc _ _ _ I) as [j2 [c2 [s2 [E2 [S2 L2]]]]].
  assert (J := A). apply ancestor_path_spec in J. destruct J as [i [s J]].
  rewrite L1, L2, <- app_assoc in J. apply app_inv_head in J.
  simpl in J. injection J as -> _.
  rewrite E1 in E2. injection E2 as <-.
  exact (subtree_ancestor _ _ _ _ S1 S2 A).
Qed.

Lemma ancestor_path_shorter p q :
  ancestor_path p q = true -> length p < length q.
Proof.
  intros A. apply ancestor_path_spec in A. destruct A as [i [s ->]].
  rewrite length_app. simpl. lia.
Qed.

Lemma path_eqb_eq p q : path_eqb p q = true <-> p = q.
Proof.
  unfold path_eqb. destruct (list_eq_dec Nat.eq_dec p q); split;
    congruence.
Qed.

(** ** [removeSubsets] and [find] *)

Lemma removeSubsets_from_incl nodes : forall rest seen,
  incl (removeSubsets_from nodes seen rest) rest.
Proof.
  induction rest as [|e rest IH]; intros seen; simpl.
  - apply incl_refl.
  - destruct (existsb (fun x => path_eqb (loc x) (loc e)) seen
              || existsb (fun x => ancestor_path (loc x) (loc e)) nodes).
    + apply incl_tl, IH.
    + apply incl_cons; [left; reflexivity | apply incl_tl, IH].
Qed.

(** A node without an ancestor in the array survives, at its first
    occurrence. *)
Lemma removeSubsets_from_keeps nodes : forall rest seen k,
  In k rest ->
  existsb (fun x => ancestor_path (loc x) (loc k)) nodes = false ->
  (exists s, In s seen /\ loc s = loc k)
  \/ (exists k', In k' (removeSubsets_from nodes seen rest) /\ loc k' = loc k).
Proof.
  induction rest as [|e rest IH]; intros seen k I NA; [contradiction|].
  simpl.
  destruct (existsb (fun x => path_eqb (loc x) (loc e)) seen) eqn:D.
  - (* [e] was seen before *)
    apply existsb_exists in D. destruct D as [s [S L]].
    apply path_eqb_eq in L. cbn [orb].
    destruct I as [<-|I]; [left; eauto|].
    destruct (IH (seen ++ [e]) k I NA) as [[s' [S' L']]|[k' [K L']]];
      [|right; eauto].
    apply in_app_iff in S'. destruct S' as [S'|[<-|[]]]; left; eauto.
    exists s. split; [exact S | congruence].
  - cbn [orb].
    destruct (existsb (fun x => ancestor_path (loc x) (loc e)) nodes) eqn:A.
    + (* [e] has an ancestor in the array *)
      destruct I as [<-|I]; [congruence|].
      destruct (IH (seen ++ [e]) k I NA) as [[s' [S' L']]|[k' [K L']]];
        [|right; eauto].
      apply in_app_iff in S'. destruct S' as [S'|[<-|[]]]; [left; eauto|].
      rewrite L' in A. congruence.
    + (* [e] is kept *)
      destruct I as [<-|I]; [right; exists e; split; [left|]; reflexivity|].
      destruct (IH (seen ++ [e]) k I NA) as [[s' [S' L']]|[k' [K L']]].
      * apply in_app_iff in S'. destruct S' as [S'|[<-|[]]]; [left; eauto|].
        right. exists e. split; [left; reflexivity | exact L'].
      * right. exists k'. split; [right; exact K | exact L'].
Qed.

Section Find.
Variable doc : Document.
Variable ctx : list Elem.
Hypothesis ctx_in_doc : incl ctx (all_elements doc).

Lemma children_in_doc : incl (flat_map child_elems ctx) (all_elements doc).
Proof.
  intros k K. apply in_flat_map in K. destruct K as [c [C K]].
  apply (forest_closed [] doc c k (ctx_in_doc c C)).
  apply (child_subtree_below c k K). left. reflexivity.
Qed.

(** Every child subtree is inside a subtree that [removeSubsets]
    keeps. *)
Lemma removeSubsets_covers : forall n k,
  length (loc k) < n ->
  In k (flat_map child_elems ctx) ->
  exists k',
    In k' (removeSubsets (flat_map child_elems ctx))
    /\ incl (self_and_descendants k) (self_and_descendants k').
Proof.
  set (kids := flat_map child_elems ctx).
  induction n as [|n IH]; intros k L K; [lia|].
  destruct (existsb (fun x => ancestor_path (loc x) (loc k)) kids) eqn:A.
  - apply existsb_exists in A. destruct A as [x [X A]].
    destruct (IH x) as [k' [K' D]]; [|exact X|].
    { apply ancestor_path_shorter in A. lia. }
    exists k'. split; [exact K'|].
    intros e E. apply D. right.
    assert (B : In k (forest (loc x) (childNodes x))).
    { apply (forest_ancestor [] doc); auto; apply children_in_doc; auto. }
    destruct E as [<-|E]; [exact B|].
    exact (forest_closed _ _ _ _ B E).
  - destruct (removeSubsets_from_keeps kids kids [] k K A)
      as [[s [[] _]]|[k' [K' E]]].
    exists k'. split; [exact K'|].
    assert (k' = k) as ->; [|apply incl_refl].
    apply (forest_loc_inj [] doc); auto; apply children_in_doc; auto.
    exact (removeSubsets_from_incl kids kids [] k' K').
Qed.

(** [$(ctx).find(sel)] selects the elements that match [sel] and lie
    below an element of the selection. *)
Lemma find_spec (sel : selector) (e : Elem) :
  In e (find ctx sel)
  <-> matches sel e = true
      /\ exists c, In c ctx /\ In e (forest (loc c) (childNodes c)).
Proof.
  unfold find. rewrite filter_In, in_flat_map. split.
  - intros [[k [K E]] M]. split; [exact M|].
    apply removeSubsets_from_incl in K. apply in_flat_map in K.
    destruct K as [c [C K]]. exists c. split; [exact C|].
    exact (child_subtree_below c k K e E).
  - intros [M [c [C E]]]. split; [|exact M].
    destruct (below_child_subtree c e E) as [k [K D]].
    destruct (removeSubsets_covers (S (length (loc k))) k) as [k' [K' I]].
    + lia.
    + apply in_flat_map. eauto.
    + exists k'. split; [exact K' | exact (I e D)].
Qed.

End Find.

Lemma matches_any3 (c1 c2 c3 : compound) (e : Elem) :
  matches [c1; c2; c3] e
  = matches [c1] e || (matches [c2] e || matches [c3] e).
Proof. unfold matches. simpl. rewrite !orb_false_r. reflexivity. Qed.

Lemma by_tag_spec (e : Elem) (t : jsstring) :
  matches [[ByTag t]] e = true <-> tagName e = t.
Proof.
  unfold matches. simpl. rewrite orb_false_r, andb_true_r.
  apply str_eqb_eq.
Qed.

Lemma sel_blocks_spec (e : Elem) : matches sel_blocks e = true <-> Block e.
Proof.
  unfold sel_blocks, Block.
  rewrite matches_any3, !orb_true_iff, !by_tag_spec.
  split; [tauto|]. intros [H|[H|H]]; auto.
Qed.

Lemma sel_containers_spec (c : Elem) :
  matches sel_containers c = true <-> Container c.
Proof.
  unfold sel_containers, Container.
  rewrite matches_any3, !orb_true_iff, by_tag_spec, !by_class_spec.
  split; [tauto|]. intros [H|[H|H]]; auto.
Qed.

(** The elements the body loop visits: the paragraphs and headings of the
    document that lie below a container. *)
Lemma content_blocks_spec (doc : Document) (e : Elem) :
  In e (content_blocks doc)
  <-> Block e
      /\ exists c, In c (all_elements doc) /\ Container c
                   /\ In e (forest (loc c) (childNodes c)).
Proof.
  unfold content_blocks.
  rewrite (find_spec doc (query doc sel_containers)).
  - rewrite sel_blocks_spec. unfold query. split.
    + intros [B [c [C E]]]. split; [exact B|]. exists c.
      apply filter_In in C. destruct C as [C M].
      apply sel_containers_spec in M. auto.
    + intros [B [c [C [M E]]]]. split; [exact B|]. exists c.
      split; [|exact E]. apply filter_In. split; [exact C|].
      apply sel_containers_spec, M.
  - intros c C. apply filter_In in C. tauto.
Qed.

Lemma content_blocks_nil (doc : Document) :
  content_blocks doc = [] <-> NoBlocks doc.
Proof.
  unfold NoBlocks. split.
  - intros N c e C K E B.
    assert (I : In e (content_blocks doc)) by (apply content_blocks_spec; eauto).
    rewrite N in I. exact I.
  - intros N. destruct (content_blocks doc) as [|e l] eqn:Q; [reflexivity|].
    assert (I : In e (content_blocks doc)) by (rewrite Q; left; reflexivity).
    apply content_blocks_spec in I. destruct I as [B [c [C [K E]]]].
    destruct (N c e C K E B).
Qed.

(* ================================================================== *)
(** * The value of a request *)
(* ================================================================== *)

Lemma fold_left_append (A : Type) (g : A -> jsstring) (l : list A) :
  forall acc,
    fold_left (fun content el => content ++ g el) l acc
    = acc ++ concat (map g l).
Proof.
  induction l as [|x l IH]; intros acc; simpl.
  - symmetry; apply app_nil_r.
  - rewrite IH, app_assoc. reflexivity.
Qed.

(** The accumulator loop computes the concatenation of the blocks. *)
Lemma extract_content_concat (doc : Document) :
  extract_content doc = concat (map block_of (content_blocks doc)).
Proof.
  unfold extract_content.
  exact (fold_left_append Elem block_of (content_blocks doc) []).
Qed.

(** The body is empty exactly when the loop visits no element. *)
Lemma extract_content_empty (doc : Document) :
  extract_content doc = [] <-> content_blocks doc = [].
Proof.
  rewrite extract_content_concat. split.
  - destruct (content_blocks doc) as [|el l]; [reflexivity|].
    unfold block_of. simpl. intros E.
    apply app_eq_nil in E. destruct E as [E _].
    apply app_eq_nil in E. destruct E as [_ E]. discriminate E.
  - intros ->. reflexivity.
Qed.

Section Results.
Context {P : Platform}.

Lemma result_bind_normal A B (m : Eff A) (k : A -> Eff B) w a :
  result m w = Normal a -> result (bind m k) w = result (k a) (after m w).
Proof.
  unfold result, after, bind. destruct (m w) as [c w']. simpl.
  intros ->. reflexivity.
Qed.

Lemma result_bind_throw A B (m : Eff A) (k : A -> Eff B) w e :
  result m w = Throw e -> result (bind m k) w = Throw e.
Proof.
  unfold result, bind. destruct (m w) as [c w']. simpl.
  intros ->. reflexivity.
Qed.

Lemma result_try_normal A (m : Eff A) h w a :
  result m w = Normal a -> result (try_catch m h) w = Normal a.
Proof.
  unfold result, try_catch. destruct (m w) as [c w']. simpl.
  intros ->. reflexivity.
Qed.

Lemma result_try_throw A (m : Eff A) h w e :
  result m w = Throw e ->
  result (try_catch m h) w = result (h e) (after m w).
Proof.
  unfold result, after, try_catch. destruct (m w) as [c w']. simpl.
  intros ->. reflexivity.
Qed.

(** The value of the pass over the page does not depend on the world it
    runs in. *)
Lemma processHtml_result html w :
  result (processHtml html) w = Normal (article (cheerio_load html)).
Proof.
  unfold processHtml, article.
  destruct (hasSubstackMarkers (cheerio_load html)); cbn [negb].
  - rewrite !result_debug_seq.
    destruct (extract_content (cheerio_load html)); reflexivity.
  - reflexivity.
Qed.

Lemma validateUrl_result url w :
  result (validateUrl url) w = Normal (admissible url).
Proof.
  unfold admissible. destruct (URL_new url) as [e|parsed] eqn:E.
  - eapply validateUrl_unparsed; eauto.
  - eapply validateUrl_parsed; eauto.
Qed.

Lemma handler_result request w :
  result (handler request) w = reply request.
Proof.
  unfold handler, reply. cbv zeta. rewrite result_debug_seq.
  destruct (str_eqb (name request) (lit "download_substack")); cbn [negb].
  2: { reflexivity. }
  set (w1 := after _ w). clearbody w1.
  destruct (admissible (url request)) eqn:A.
  - unfold fetched.
    destruct (fetch (url request)) as [e|response] eqn:F.
    + erewrite result_try_throw.
      * reflexivity.
      * erewrite result_bind_normal by apply validateUrl_result.
        rewrite A. cbn [negb]. rewrite result_debug_seq. reflexivity.
    + destruct (response_text response) as [e|html] eqn:T.
      * erewrite result_try_throw.
        -- reflexivity.
        -- erewrite result_bind_normal by apply validateUrl_result.
           rewrite A. cbn [negb]. rewrite result_debug_seq.
           unfold call at 1.
           erewrite result_bind_normal by reflexivity.
           rewrite result_debug_seq, T. reflexivity.
      * apply result_try_normal.
        erewrite result_bind_normal by apply validateUrl_result.
        rewrite A. cbn [negb]. rewrite result_debug_seq.
        unfold call at 1.
        erewrite result_bind_normal by reflexivity.
        rewrite result_debug_seq, T.
        unfold call at 1.
        erewrite result_bind_normal by reflexivity.
        rewrite result_debug_seq. apply processHtml_result.
  - apply result_try_normal.
    erewrite result_bind_normal by apply validateUrl_result.
    rewrite A. reflexivity.
Qed.

End Results.

(* ================================================================== *)
(** * Classification and extraction *)
(* ================================================================== *)

Lemma failure_texts_differ :
  failure MSG_SUBSCRIBER_ONLY <> failure MSG_NOT_SUBSTACK.
Proof.
  intros E. apply (f_equal (fun r => map block_text (content r))) in E.
  vm_compute in E. discriminate E.
Qed.

(** C2. The pass over a fetched page returns the "not a Substack post"
    failure exactly when the document has none of the four markers: no
    [meta] whose [content] contains "substack", no [script] whose [src]
    contains "substack", no element of class [post-content], none of class
    [subscriber-only].  On such a document the result is a failure, never
    a success. *)
Theorem not_substack_iff_unmarked {P : Platform} (html : jsstring) (w : World) :
  (result (processHtml html) w = Normal (failure MSG_NOT_SUBSTACK)
   <-> ~ Marked (cheerio_load html))
  /\ forall r, result (processHtml html) w = Normal r ->
               isError r = None -> Marked (cheerio_load html).
Proof.
  rewrite processHtml_result. unfold article.
  destruct (hasSubstackMarkers (cheerio_load html)) eqn:M.
  - apply hasSubstackMarkers_spec in M. split.
    + split; [|tauto]. intros E. exfalso.
      destruct (extract_content (cheerio_load html)).
      * apply failure_texts_differ.
        exact (f_equal (fun c => match c with Normal r => r | Throw _ => failure [] end) E).
      * discriminate E.
    + intros; exact M.
  - apply hasSubstackMarkers_false in M. split.
    + tauto.
    + intros r E N. injection E as <-. discriminate N.
Qed.

Lemma not_substack_iff_unmarked_witness :
  result (@processHtml (sample_platform plain_doc) (lit "<html>")) sample_world
  = Normal (failure MSG_NOT_SUBSTACK).
Proof.
  apply (proj1 (@not_substack_iff_unmarked (sample_platform plain_doc)
                  (lit "<html>") sample_world)).
  apply hasSubstackMarkers_false. vm_compute. reflexivity.
Defined.

(** "Containers that yield zero paragraph or heading text give the
    subscriber-only failure" fails on a marked page whose only blocks are
    blank.  Lines 125-127 append two line feeds for every visited
    element, whatever its text, before line 130 tests the body: here the
    two blocks have no text at all, the body is four line feeds, and the
    result is a success. *)
Lemma blank_blocks_are_a_body :
  hasSubstackMarkers blank_blocks_doc = true
  /\ map (fun el => trim (text [el])) (content_blocks blank_blocks_doc)
     = [[]; []]
  /\ extract_content blank_blocks_doc = [LF; LF; LF; LF]
  /\ result (@processHtml (sample_platform blank_blocks_doc) (lit "<html>"))
            sample_world
     = Normal (success (lit "Title: My Title" ++ [LF] ++ lit "Author: " ++ [LF]
                        ++ lit "Subtitle: " ++ [LF; LF] ++ [LF; LF; LF; LF]))
  /\ result (@processHtml (sample_platform blank_blocks_doc) (lit "<html>"))
            sample_world
     <> Normal (failure MSG_SUBSCRIBER_ONLY).
Proof.
  split; [vm_compute; reflexivity|].
  split; [vm_compute; reflexivity|].
  split; [vm_compute; reflexivity|].
  split; [vm_compute; reflexivity|].
  intros E.
  apply (f_equal (fun c => match c with
                           | Normal r => isError r
                           | Throw _ => Some false
                           end)) in E.
  vm_compute in E. discriminate E.
Qed.

(** C3, as the code has it.  On a marked document whose containers
    ([.post-content], [article], [.body]) have no [p], [h2] or [h3]
    element below them, the pass returns the subscriber-only failure,
    whatever the title, subtitle and author are.  A result without the
    error flag has a non-empty body, and an empty body always gives a
    failure. *)
Theorem empty_body_is_failure {P : Platform} (html : jsstring) (w : World) :
  (Marked (cheerio_load html) ->
   NoBlocks (cheerio_load html) ->
   result (processHtml html) w = Normal (failure MSG_SUBSCRIBER_ONLY))
  /\ (forall r,
        result (processHtml html) w = Normal r -> isError r = None ->
        extract_content (cheerio_load html) <> []
        /\ ~ NoBlocks (cheerio_load html))
  /\ (extract_content (cheerio_load html) = [] ->
      exists t, result (processHtml html) w = Normal (failure t)).
Proof.
  rewrite processHtml_result. unfold article. split; [|split].
  - intros M B. apply hasSubstackMarkers_spec in M. rewrite M.
    apply content_blocks_nil, extract_content_empty in B. rewrite B.
    reflexivity.
  - intros r R N.
    assert (C : extract_content (cheerio_load html) <> []).
    { intros B. rewrite B in R.
      destruct (hasSubstackMarkers (cheerio_load html));
        injection R as <-; discriminate N. }
    split; [exact C|].
    intros B. apply C. apply extract_content_empty, content_blocks_nil, B.
  - intros B. rewrite B.
    destruct (hasSubstackMarkers (cheerio_load html)); eauto.
Qed.

Lemma empty_body_is_failure_witness :
  result (@processHtml (sample_platform banner_only_doc) (lit "<html>"))
         sample_world
  = Normal (failure MSG_SUBSCRIBER_ONLY).
Proof.
  apply (proj1 (@empty_body_is_failure (sample_platform banner_only_doc)
                  (lit "<html>") sample_world)).
  - apply hasSubstackMarkers_spec. vm_compute. reflexivity.
  - apply content_blocks_nil. vm_compute. reflexivity.
Defined.

(** C8. The pass over a page is a function of the page alone: run in any
    two worlds (different clocks, different diagnostic streams) it returns
    the same result, in particular when it is run a second time in the
    world the first run left; and it always returns. *)
Theorem processHtml_deterministic {P : Platform}
        (html : jsstring) (w1 w2 : World) :
  result (processHtml html) w1 = result (processHtml html) w2
  /\ result (processHtml html) (after (processHtml html) w1)
     = result (processHtml html) w1
  /\ exists r, result (processHtml html) w1 = Normal r.
Proof.
  rewrite !processHtml_result. eauto.
Qed.

(* ================================================================== *)
(** * The response envelope *)
(* ================================================================== *)

Lemma article_cases (doc : Document) :
  article doc = failure MSG_NOT_SUBSTACK
  \/ article doc = failure MSG_SUBSCRIBER_ONLY
  \/ (extract_content doc <> []
      /\ article doc
         = success (success_text (extract_title doc) (extract_author doc)
                                 (extract_subtitle doc) (extract_content doc))).
Proof.
  unfold article. destruct (hasSubstackMarkers doc); auto.
  destruct (extract_content doc) eqn:E; auto.
  right; right. split; [discriminate | reflexivity].
Qed.

(** C4. A result of the handler without the error flag is one content
    block of type "text" whose text is
    [Title: {title}\nAuthor: {author}\nSubtitle: {subtitle}\n\n{body}],
    the four fields being those extracted from the fetched page.  For the
    page of scenario 1 the text is
    [Title: My Title\nAuthor: \nSubtitle: \n\nHello\n\n]. *)
Theorem success_text_format :
  (forall (P : Platform) (request : Request) (w : World) (r : ToolResult),
      result (handler request) w = Normal r ->
      isError r = None ->
      exists html,
        fetched (url request) = inr html
        /\ r = {| content :=
                    [{| type := lit "text";
                        block_text :=
                          lit "Title: " ++ extract_title (cheerio_load html)
                          ++ [LF] ++ lit "Author: "
                          ++ extract_author (cheerio_load html)
                          ++ [LF] ++ lit "Subtitle: "
                          ++ extract_subtitle (cheerio_load html)
                          ++ [LF; LF] ++ extract_content (cheerio_load html) |}];
                  isError := None |})
  /\ forall w,
      result (@handler (sample_platform scenario1_doc) scenario1_request) w
      = Normal {| content :=
                    [{| type := lit "text";
                        block_text :=
                          lit "Title: My Title" ++ [LF] ++ lit "Author: " ++ [LF]
                          ++ lit "Subtitle: " ++ [LF; LF]
                          ++ lit "Hello" ++ [LF; LF] |}];
                  isError := None |}.
Proof.
  split.
  - intros P request w r R N. rewrite handler_result in R. unfold reply in R.
    destruct (str_eqb (name request) (lit "download_substack")); [|discriminate R].
    injection R as <-.
    destruct (admissible (url request)); [|discriminate N].
    destruct (fetched (url request)) as [err|html]; [discriminate N|].
    exists html. split; [reflexivity|].
    destruct (article_cases (cheerio_load html)) as [E|[E|[_ E]]];
      rewrite E in N |- *; try discriminate N.
    reflexivity.
  - intros w. rewrite handler_result. vm_compute. reflexivity.
Qed.

Lemma success_text_format_witness :
  exists html,
    @fetched (sample_platform scenario1_doc) (url scenario1_request) = inr html.
Proof.
  destruct (proj1 success_text_format (sample_platform scenario1_doc)
                  scenario1_request sample_world
                  (success (lit "Title: My Title" ++ [LF] ++ lit "Author: " ++ [LF]
                            ++ lit "Subtitle: " ++ [LF; LF]
                            ++ lit "Hello" ++ [LF; LF]))
                  eq_refl eq_refl) as [html [F _]].
  exists html. exact F.
Defined.

(** C7. A request for any other tool than [download_substack] makes the
    handler throw [Error("Unknown tool: <name>")]; a request for
    [download_substack] never throws: every failure it meets is returned
    as a result with the error flag. *)
Theorem unknown_tool_throws {P : Platform} (request : Request) (w : World) :
  name request <> lit "download_substack" ->
  result (handler request) w
  = Throw (Error (lit "Unknown tool: " ++ name request))
  /\ (forall r, result (handler request) w <> Normal r)
  /\ forall request' w',
      name request' = lit "download_substack" ->
      exists r, result (handler request') w' = Normal r
                /\ (isError r = Some true \/ isError r = None).
Proof.
  intros U. rewrite handler_result. unfold reply.
  apply str_eqb_neq in U. rewrite U. repeat split.
  - discriminate.
  - intros request' w' K. rewrite handler_result. unfold reply.
    rewrite K, str_eqb_refl. eexists. split; [reflexivity|].
    destruct (admissible (url request')); [|auto].
    destruct (fetched (url request')) as [err|html]; [auto|].
    destruct (article_cases (cheerio_load html)) as [E|[E|[_ E]]];
      rewrite E; auto.
Qed.

Lemma unknown_tool_throws_witness :
  result (@handler offline_platform unknown_request) sample_world
  = Throw (Error (lit "Unknown tool: upload_substack")).
Proof.
  refine (proj1 (@unknown_tool_throws offline_platform unknown_request
                   sample_world _)).
  intros E. discriminate E.
Defined.

(** A diagnostic is never mistaken for an article: the article text
    starts with "Ti", no diagnostic does. *)
Lemma diagnostic_not_article (t : jsstring) :
  Diagnostic t -> ~ ArticleText t.
Proof.
  intros D [title [author [subtitle [body [_ A]]]]].
  assert (H : firstn 2 t = lit "Ti") by (rewrite A; reflexivity).
  destruct D as [->|[->|[->|[err ->]]]]; discriminate H.
Qed.

(** C10. Every result the handler returns holds exactly one content
    block, of type "text".  A result whose text is one of the diagnostics
    has [isError: true]; the result with the article text has no
    [isError] property at all; these are the only two shapes, and no
    result has [isError: false]. *)
Theorem response_envelope {P : Platform}
        (request : Request) (w : World) (r : ToolResult) :
  result (handler request) w = Normal r ->
  exists t,
    content r = [{| type := lit "text"; block_text := t |}]
    /\ (Diagnostic t <-> isError r = Some true)
    /\ (ArticleText t <-> isError r = None)
    /\ (isError r = Some true \/ isError r = None).
Proof.
  intros R. rewrite handler_result in R. unfold reply in R.
  destruct (str_eqb (name request) (lit "download_substack")); [|discriminate R].
  injection R as <-.
  assert (F : forall t, Diagnostic t ->
    exists t',
      content (failure t) = [{| type := lit "text"; block_text := t' |}]
      /\ (Diagnostic t' <-> isError (failure t) = Some true)
      /\ (ArticleText t' <-> isError (failure t) = None)
      /\ (isError (failure t) = Some true \/ isError (failure t) = None)).
  { intros t D. exists t. simpl. repeat split; auto; try discriminate.
    intros A. destruct (diagnostic_not_article t D A). }
  unfold Diagnostic in F.
  destruct (admissible (url request)); [|apply F; auto].
  destruct (fetched (url request)) as [err|html];
    [apply F; right; right; right; eauto|].
  destruct (article_cases (cheerio_load html)) as [E|[E|[B E]]];
    rewrite E; [apply F; auto | apply F; auto |].
  eexists. split; [reflexivity|].
  assert (A : ArticleText
                (success_text (extract_title (cheerio_load html))
                              (extract_author (cheerio_load html))
                              (extract_subtitle (cheerio_load html))
                              (extract_content (cheerio_load html))))
    by (do 4 eexists; split; [exact B | reflexivity]).
  simpl. repeat split; auto; try discriminate.
  intros D. destruct (diagnostic_not_article _ D A).
Qed.

Lemma response_envelope_witness :
  exists t,
    content (failure (lit "Error processing Substack post: FetchError: connect ECONNREFUSED"))
    = [{| type := lit "text"; block_text := t |}].
Proof.
  destruct (@response_envelope offline_platform
              (mkRequest (lit "download_substack")
                         (lit "https://foo.substack.com/about"))
              sample_world
              (failure (lit "Error processing Substack post: FetchError: connect ECONNREFUSED"))
              eq_refl) as [t [C _]].
  exists t. exact C.
Defined.

(* ================================================================== *)
(** * The subtitle *)
(* ================================================================== *)

Lemma query_class_nil (doc : Document) (c : jsstring) :
  query doc [[ByClass c]] = []
  <-> forall e, In e (all_elements doc) -> ~ HasClass e c.
Proof.
  unfold query. split.
  - intros Q e I C. apply by_class_spec in C.
    assert (F : In e (filter (matches [[ByClass c]]) (all_elements doc)))
      by (apply filter_In; auto).
    rewrite Q in F. exact F.
  - intros N.
    destruct (filter (matches [[ByClass c]]) (all_elements doc)) as [|e l] eqn:F;
      [reflexivity|].
    assert (I : In e (filter (matches [[ByClass c]]) (all_elements doc)))
      by (rewrite F; left; reflexivity).
    apply filter_In in I. destruct I as [I M].
    apply by_class_spec in M. destruct (N e I M).
Qed.

(** "The subtitle is the trimmed text of the first element of class
    [subtitle]" fails on a page with two such elements: the code
    takes [.text()] of the whole selection, which is "OneTwo", where the
    first element alone has "One". *)
Lemma subtitle_not_first_element :
  extract_subtitle two_subtitles_doc = lit "OneTwo"
  /\ trim (text (first (query two_subtitles_doc sel_subtitle))) = lit "One"
  /\ extract_subtitle two_subtitles_doc
     <> trim (text (first (query two_subtitles_doc sel_subtitle))).
Proof.
  repeat split; try (vm_compute; reflexivity).
  vm_compute. discriminate.
Qed.

(** C6, as the code has it.  The subtitle is the trimmed concatenation,
    in document order, of the texts of all the elements of class
    [subtitle]: the trimmed text of that element when there is exactly
    one, and the empty string when there is none.  A page without such an
    element still succeeds when it is marked and has a body. *)
Theorem subtitle_joins_all_matches {P : Platform} (html : jsstring) (w : World) :
  (exists f : Elem -> bool,
      (forall e, f e = true <-> HasClass e (lit "subtitle"))
      /\ extract_subtitle (cheerio_load html)
         = trim (concat (map (fun e => text [e])
                             (filter f (all_elements (cheerio_load html))))))
  /\ (forall e,
        query (cheerio_load html) sel_subtitle = [e] ->
        extract_subtitle (cheerio_load html) = trim (text [e])
        /\ extract_subtitle (cheerio_load html)
           = trim (text (first (query (cheerio_load html) sel_subtitle))))
  /\ ((forall e, In e (all_elements (cheerio_load html)) ->
                 ~ HasClass e (lit "subtitle")) ->
      extract_subtitle (cheerio_load html) = []
      /\ (Marked (cheerio_load html) ->
          content_blocks (cheerio_load html) <> [] ->
          result (processHtml html) w
          = Normal (success
                      (success_text (extract_title (cheerio_load html))
                                    (extract_author (cheerio_load html))
                                    []
                                    (extract_content (cheerio_load html)))))).
Proof.
  set (doc := cheerio_load html). split; [|split].
  - exists (matches sel_subtitle). split.
    + intros e. apply by_class_spec.
    + unfold extract_subtitle, text, query. f_equal. f_equal.
      apply map_ext. intros e. simpl. symmetry. apply app_nil_r.
  - intros e Q. unfold extract_subtitle. rewrite Q. split; reflexivity.
  - intros N. apply query_class_nil in N.
    assert (E : extract_subtitle doc = [])
      by (unfold extract_subtitle, sel_subtitle; rewrite N; reflexivity).
    split; [exact E|].
    intros M B. rewrite processHtml_result. fold doc. unfold article.
    apply hasSubstackMarkers_spec in M. rewrite M, E.
    destruct (extract_content doc) eqn:C; [|reflexivity].
    apply extract_content_empty in C. contradiction.
Qed.

Lemma subtitle_joins_all_matches_witness :
  extract_subtitle scenario1_doc = [].
Proof.
  refine (proj1 (proj2 (proj2
            (@subtitle_joins_all_matches (sample_platform scenario1_doc)
               (lit "<html>") sample_world)) _)).
  apply query_class_nil. vm_compute. reflexivity.
Defined.

(* ================================================================== *)
(** * Further properties: the diagnostic stream *)
(* ================================================================== *)

Lemma mapi_from_app (A B : Type) (f : nat -> A -> B) (l1 l2 : list A) :
  forall i,
    mapi_from f i (l1 ++ l2)
    = mapi_from f i l1 ++ mapi_from f (i + length l1) l2.
Proof.
  induction l1 as [|x l1 IH]; intros i; simpl.
  - rewrite Nat.add_0_r. reflexivity.
  - rewrite IH, Nat.add_succ_r. reflexivity.
Qed.

Lemma logged_nil (w : World) : logged w [] = w.
Proof.
  destruct w as [c r s]. unfold logged. simpl.
  rewrite Nat.add_0_r, app_nil_r. reflexivity.
Qed.

Lemma logged_app (w : World) (b1 b2 : list jsstring) :
  logged (logged w b1) b2 = logged w (b1 ++ b2).
Proof.
  unfold logged. simpl.
  rewrite length_app, mapi_from_app, Nat.add_assoc, <- app_assoc.
  reflexivity.
Qed.

Section Stream.
Context {P : Platform}.

Lemma after_debug message args w :
  after (debug message args) w = logged w [log_body message args].
Proof.
  unfold after, debug, logged, log_body, stamp. simpl.
  rewrite Nat.add_1_r, <- !app_assoc. reflexivity.
Qed.

Lemma after_debug_seq A message args (k : Eff A) w :
  after (debug message args ;; k) w
  = after k (logged w [log_body message args]).
Proof. rewrite <- after_debug. reflexivity. Qed.

Lemma after_bind_normal A B (m : Eff A) (k : A -> Eff B) w a :
  result m w = Normal a -> after (bind m k) w = after (k a) (after m w).
Proof.
  unfold result, after, bind. destruct (m w) as [c w']. simpl.
  intros ->. reflexivity.
Qed.

Lemma after_bind_throw A B (m : Eff A) (k : A -> Eff B) w e :
  result m w = Throw e -> after (bind m k) w = after m w.
Proof.
  unfold result, after, bind. destruct (m w) as [c w']. simpl.
  intros ->. reflexivity.
Qed.

Lemma after_try_normal A (m : Eff A) h w a :
  result m w = Normal a -> after (try_catch m h) w = after m w.
Proof.
  unfold result, after, try_catch. destruct (m w) as [c w']. simpl.
  intros ->. reflexivity.
Qed.

Lemma after_try_throw A (m : Eff A) h w e :
  result m w = Throw e ->
  after (try_catch m h) w = after (h e) (after m w).
Proof.
  unfold result, after, try_catch. destruct (m w) as [c w']. simpl.
  intros ->. reflexivity.
Qed.

End Stream.

Section Trace.
Context {P : Platform}.

Lemma after_processHtml html w :
  after (processHtml html) w = logged w (processHtml_log html).
Proof.
  unfold processHtml, processHtml_log. cbv zeta.
  destruct (hasSubstackMarkers (cheerio_load html)); cbn [negb].
  - rewrite !after_debug_seq, !logged_app.
    destruct (extract_content (cheerio_load html));
      rewrite after_debug_seq, logged_app; reflexivity.
  - rewrite after_debug_seq. unfold after, ret. reflexivity.
Qed.

Lemma after_validateUrl url w :
  after (validateUrl url) w
  = if admissible url then w else logged w [rejection_body url].
Proof.
  unfold admissible, rejection_body, validateUrl, after, try_catch, bind, call.
  destruct (URL_new url) as [e|parsed]; simpl.
  - apply (after_debug (lit "URL parsing error:") [VError e] w).
  - destruct (endsWith (hostname parsed) (lit ".substack.com")
              || test_p_slug (pathname parsed)); simpl.
    + reflexivity.
    + apply (after_debug (lit "Invalid URL structure:") [VString url] w).
Qed.

(** The stream after a request: the old stream and the lines of
    [handler_log]. *)
Lemma after_handler request w :
  after (handler request) w = logged w (handler_log request).
Proof.
  unfold handler, handler_log, download_log. cbv zeta.
  rewrite after_debug_seq.
  destruct (str_eqb (name request) (lit "download_substack")); cbn [negb].
  2: { rewrite after_debug_seq, logged_app. reflexivity. }
  set (w1 := logged w _).
  assert (V := validateUrl_result (url request) w1).
  assert (W := after_validateUrl (url request) w1).
  destruct (admissible (url request)) eqn:A.
  - destruct (fetch (url request)) as [e|response] eqn:F.
    + erewrite after_try_throw.
      * rewrite after_debug_seq.
        erewrite after_bind_normal by exact V. rewrite W. cbn [negb].
        rewrite after_debug_seq. unfold call at 1.
        erewrite after_bind_throw by reflexivity.
        unfold after at 2, throw, ret, after. cbn [snd].
        unfold w1. rewrite !logged_app. reflexivity.
      * erewrite result_bind_normal by exact V. cbn [negb].
        rewrite result_debug_seq. reflexivity.
    + destruct (response_text response) as [e|html] eqn:T.
      * erewrite after_try_throw.
        -- rewrite after_debug_seq.
           erewrite after_bind_normal by exact V. rewrite W. cbn [negb].
           rewrite after_debug_seq. unfold call at 1.
           erewrite after_bind_normal by reflexivity.
           rewrite after_debug_seq, T. unfold call at 1.
           erewrite after_bind_throw by reflexivity.
           unfold after, throw, ret. cbn [snd].
           unfold w1. rewrite !logged_app. reflexivity.
        -- erewrite result_bind_normal by exact V. cbn [negb].
           rewrite result_debug_seq. unfold call at 1.
           erewrite result_bind_normal by reflexivity.
           rewrite result_debug_seq, T. reflexivity.
      * erewrite after_try_normal.
        -- erewrite after_bind_normal by exact V. rewrite W. cbn [negb].
           rewrite after_debug_seq. unfold call at 1.
           erewrite after_bind_normal by reflexivity.
           rewrite after_debug_seq, T. unfold call at 1.
           erewrite after_bind_normal by reflexivity.
           rewrite after_debug_seq, after_processHtml.
           unfold after, ret. cbn [snd].
           unfold w1. rewrite !logged_app. reflexivity.
        -- erewrite result_bind_normal by exact V. cbn [negb].
           rewrite result_debug_seq. unfold call at 1.
           erewrite result_bind_normal by reflexivity.
           rewrite result_debug_seq, T. unfold call at 1.
           erewrite result_bind_normal by reflexivity.
           rewrite result_debug_seq. apply processHtml_result.
  - erewrite after_try_normal.
    + erewrite after_bind_normal by exact V. rewrite W. cbn [negb].
      unfold after, ret. cbn [snd]. unfold w1. rewrite logged_app. reflexivity.
    + erewrite result_bind_normal by exact V. reflexivity.
Qed.

End Trace.

(** X1. [validateUrl] is silent when it accepts and writes exactly one
    line when it rejects: "URL parsing error:" with the error when the
    parser threw, "Invalid URL structure:" with the string otherwise.
    The clock and the earlier lines are kept. *)
Theorem validateUrl_logging {P : Platform} (url : jsstring) (w : World) :
  (result (validateUrl url) w = Normal true ->
   after (validateUrl url) w = w)
  /\ (result (validateUrl url) w = Normal false ->
      clock (after (validateUrl url) w) = clock w
      /\ reads (after (validateUrl url) w) = S (reads w)
      /\ stderr (after (validateUrl url) w)
         = stderr w ++ [stamp (clock w) (reads w) (rejection_body url)])
  /\ (forall e, URL_new url = inl e ->
                rejection_body url
                = lit "URL parsing error: " ++ JSON_stringify (VError e))
  /\ (forall parsed, URL_new url = inr parsed ->
                     rejection_body url
                     = lit "Invalid URL structure: "
                       ++ JSON_stringify (VString url)).
Proof.
  rewrite validateUrl_result, after_validateUrl.
  assert (B1 : forall e, URL_new url = inl e ->
                rejection_body url
                = lit "URL parsing error: " ++ JSON_stringify (VError e)).
  { intros e E. unfold rejection_body. rewrite E. reflexivity. }
  assert (B2 : forall parsed, URL_new url = inr parsed ->
                rejection_body url
                = lit "Invalid URL structure: " ++ JSON_stringify (VString url)).
  { intros parsed E. unfold rejection_body. rewrite E. reflexivity. }
  destruct (admissible url).
  - split; [reflexivity|]. split; [discriminate | auto].
  - split; [discriminate|]. split; [|auto].
    intros _. unfold logged. simpl. rewrite Nat.add_1_r. auto.
Qed.

Lemma validateUrl_logging_witness :
  stderr (after (@validateUrl (sample_platform [])
                              (lit "https://example.com/about")) sample_world)
  = [lit "[2024-01-01T00:00:00.000Z] DEBUG: Invalid URL structure: {}" ++ [LF]].
Proof.
  destruct (proj1 (proj2 (@validateUrl_logging (sample_platform [])
                            (lit "https://example.com/about") sample_world))
                  eq_refl) as [_ [_ E]].
  rewrite E. reflexivity.
Defined.



(** X3. For a URL that [validateUrl] rejects the handler returns the
    invalid-URL failure, the same for a string that does not parse and
    for a URL of the wrong shape, and the stream receives exactly two
    lines: the request line and the rejection line. *)
Theorem rejected_url_stops_request {P : Platform} (request : Request) (w w' : World) :
  name request = lit "download_substack" ->
  result (validateUrl (url request)) w' = Normal false ->
  result (handler request) w = Normal (failure MSG_INVALID_URL)
  /\ stderr (after (handler request) w)
     = stderr w
       ++ [stamp (clock w) (reads w)
             (lit "Received request: "
              ++ JSON_stringify (VParams (name request) (url request)));
           stamp (clock w) (S (reads w)) (rejection_body (url request))].
Proof.
  intros N V. rewrite validateUrl_result in V.
  rewrite handler_result, after_handler.
  unfold reply, handler_log, download_log.
  rewrite N, str_eqb_refl.
  destruct (admissible (url request)); [discriminate V|].
  split; reflexivity.
Qed.

Lemma rejected_url_stops_request_witness :
  result (@handler offline_platform
            (mkRequest (lit "download_substack") (lit "https://example.com/about")))
         sample_world
  = Normal (failure MSG_INVALID_URL).
Proof.
  apply (proj1 (@rejected_url_stops_request offline_platform
                  (mkRequest (lit "download_substack")
                             (lit "https://example.com/about"))
                  sample_world sample_world eq_refl eq_refl)).
Defined.

(** X4. When [fetch] throws, or [response.text()] does, for a URL that
    [validateUrl] accepted, the error is caught: the result is a failure
    whose text is "Error processing Substack post: " followed by the
    error converted to a string, which is [<name>: <message>] when both
    are non-empty. *)
Theorem fetch_error_is_reported {P : Platform}
        (request : Request) (w w' : World) (err : JsError) :
  name request = lit "download_substack" ->
  result (validateUrl (url request)) w' = Normal true ->
  (fetch (url request) = inl err
   \/ exists response,
       fetch (url request) = inr response
       /\ response_text response = inl err) ->
  result (handler request) w
  = Normal (failure (lit "Error processing Substack post: "
                     ++ Error_toString err))
  /\ (err_name err <> [] -> err_message err <> [] ->
      Error_toString err = err_name err ++ lit ": " ++ err_message err).
Proof.
  intros N V F. rewrite validateUrl_result in V. injection V as V. split.
  - rewrite handler_result. unfold reply, fetched.
    rewrite N, str_eqb_refl, V.
    destruct F as [F|[response [F T]]]; rewrite F; [|rewrite T]; reflexivity.
  - unfold Error_toString.
    destruct (err_name err), (err_message err); congruence.
Qed.

Lemma fetch_error_is_reported_witness :
  result (@handler offline_platform scenario1_request) sample_world
  = Normal (failure (lit "Error processing Substack post: FetchError: connect ECONNREFUSED")).
Proof.
  apply (proj1 (@fetch_error_is_reported offline_platform scenario1_request
                  sample_world sample_world
                  (mkError (lit "FetchError") (lit "connect ECONNREFUSED"))
                  eq_refl eq_refl (or_introl eq_refl))).
Defined.



(* ================================================================== *)
(** * Further properties: the URL pattern and the extracted fields *)
(* ================================================================== *)

(** X6. In [/^\/p\/[\w-]+/] only the character after [/p/] matters: a
    path is accepted exactly when it starts with [/p/] and a word
    character or hyphen; whatever follows is accepted with it, so an
    accepted path stays accepted when it is extended. *)
Theorem slug_first_character_decides (s : jsstring) :
  (test_p_slug s = true
   <-> exists c rest, s = lit "/p/" ++ c :: rest /\ isWordOrHyphen c = true)
  /\ (forall t, test_p_slug s = true -> test_p_slug (s ++ t) = true).
Proof.
  assert (E : forall s0,
             test_p_slug s0 = true
             <-> exists c rest, s0 = lit "/p/" ++ c :: rest
                                /\ isWordOrHyphen c = true).
  { intros s0. rewrite test_p_slug_spec. unfold PostPath. split.
    - intros [[|c slug] [rest [-> [NE A]]]]; [congruence|].
      exists c, (slug ++ rest). split; [reflexivity|].
      apply A. left. reflexivity.
    - intros [c [rest [-> W]]]. exists [c], rest.
      split; [reflexivity|]. split; [discriminate|].
      intros d [<-|[]]. exact W. }
  split; [apply E|].
  intros t H. apply E in H. destruct H as [c [rest [-> W]]].
  apply E. exists c, (rest ++ t). split; [|exact W].
  rewrite <- app_assoc. reflexivity.
Qed.

Lemma slug_first_character_decides_witness :
  test_p_slug (lit "/p/my-post" ++ lit "/comments?x=1") = true.
Proof.
  apply (proj2 (slug_first_character_decides (lit "/p/my-post"))
               (lit "/comments?x=1")).
  reflexivity.
Defined.

(** ** [trim] *)

Lemma trimStart_head (s : jsstring) :
  forall c r, trimStart s = c :: r -> isWhiteSpace c = false.
Proof.
  induction s as [|d s IH]; simpl; [discriminate|].
  destruct (isWhiteSpace d) eqn:W; [exact IH|].
  intros c r E. injection E as <- _. exact W.
Qed.

Lemma trimStart_split (s : jsstring) :
  exists pre,
    s = pre ++ trimStart s /\ forall c, In c pre -> isWhiteSpace c = true.
Proof.
  induction s as [|d s [pre [E A]]]; simpl.
  - exists []. split; [reflexivity | intros c []].
  - destruct (isWhiteSpace d) eqn:W.
    + exists (d :: pre). split; [simpl; congruence|].
      intros c [<-|I]; auto.
    + exists []. split; [reflexivity | intros c []].
Qed.

Lemma trim_Trimmed (s : jsstring) : Trimmed (trim s).
Proof.
  unfold trim, trimEnd. set (t := trimStart s). split.
  - intros c r E.
    destruct (trimStart_split (rev t)) as [pre [S _]].
    apply (f_equal (@rev N)) in S.
    rewrite rev_involutive, rev_app_distr, E in S.
    apply (trimStart_head s c (r ++ rev pre)). exact S.
  - intros r c E.
    apply (f_equal (@rev N)) in E.
    rewrite rev_involutive, rev_app_distr in E. simpl in E.
    exact (trimStart_head (rev t) c (rev r) E).
Qed.

(** [trim] removes white space only, and only at the ends. *)
Lemma trim_split (s : jsstring) :
  exists a b,
    s = a ++ trim s ++ b
    /\ (forall c, In c a -> isWhiteSpace c = true)
    /\ (forall c, In c b -> isWhiteSpace c = true).
Proof.
  unfold trim, trimEnd.
  destruct (trimStart_split s) as [a [S A]].
  destruct (trimStart_split (rev (trimStart s))) as [b [T B]].
  exists a, (rev b). split; [|split].
  - apply (f_equal (@rev N)) in T.
    rewrite rev_involutive, rev_app_distr in T.
    rewrite <- T. exact S.
  - exact A.
  - intros c I. apply B. apply in_rev. exact I.
Qed.

Lemma str_or_Trimmed (a b : jsstring) :
  Trimmed a -> Trimmed b -> Trimmed (str_or a b).
Proof. destruct a; auto. Qed.

(** X7. The extracted title, subtitle and author never begin or end with
    white space, whichever of the two sources of the title and of the
    author is used. *)
Theorem extracted_fields_are_trimmed (doc : Document) :
  Trimmed (extract_title doc)
  /\ Trimmed (extract_subtitle doc)
  /\ Trimmed (extract_author doc).
Proof.
  unfold extract_title, extract_subtitle, extract_author.
  repeat split; try apply str_or_Trimmed; try apply trim_Trimmed;
    apply (trim_Trimmed _).
Qed.

Lemma matches_tag_class (e : Elem) (t c : jsstring) :
  matches [[ByTag t; ByClass c]] e
  = matches [[ByTag t]] e && matches [[ByClass c]] e.
Proof.
  unfold matches. cbn [existsb forallb].
  destruct (matches_simple e (ByTag t)), (matches_simple e (ByClass c));
    reflexivity.
Qed.

Lemma filter_andb (A : Type) (f g : A -> bool) (l : list A) :
  filter (fun x => f x && g x) l = filter g (filter f l).
Proof.
  induction l as [|x l IH]; simpl; [reflexivity|].
  destruct (f x); simpl; [destruct (g x)|]; rewrite IH; reflexivity.
Qed.

(** [$('t.c')] selects among what [$('t')] selects. *)
Lemma query_compound (doc : Document) (t c : jsstring) :
  query doc [[ByTag t; ByClass c]]
  = filter (matches [[ByClass c]]) (query doc [[ByTag t]]).
Proof.
  unfold query. rewrite <- filter_andb. apply filter_ext.
  intros e. apply matches_tag_class.
Qed.

(** X8. The title comes from the [h1] elements only.  Without any [h1]
    it is empty.  When the first [h1] has text, the title is that text,
    trimmed, whatever the other headings hold.  When the first [h1] is
    blank, the title is the trimmed text of all the [h1] of class
    [post-title] together. *)
Theorem title_sources (doc : Document) :
  (query doc sel_h1 = [] -> extract_title doc = [])
  /\ (forall e rest,
        query doc sel_h1 = e :: rest ->
        trim (text [e]) <> [] ->
        extract_title doc = trim (text [e]))
  /\ (forall e rest,
        query doc sel_h1 = e :: rest ->
        trim (text [e]) = [] ->
        extract_title doc
        = trim (text (filter (matches [[ByClass (lit "post-title")]])
                             (e :: rest))))
  /\ (forall e, In e (query doc sel_h1)
                <-> In e (all_elements doc) /\ tagName e = lit "h1").
Proof.
  unfold extract_title, sel_h1_post_title. rewrite query_compound.
  fold sel_h1. split; [|split; [|split]].
  - intros ->. reflexivity.
  - intros e rest -> T. unfold first. cbn [firstn].
    destruct (trim (text [e])); [congruence | reflexivity].
  - intros e rest -> T. unfold first. cbn [firstn]. rewrite T. reflexivity.
  - intros e. unfold query. rewrite filter_In. unfold sel_h1.
    rewrite by_tag_spec. reflexivity.
Qed.

Lemma title_sources_witness :
  extract_title scenario1_doc = lit "My Title".
Proof.
  rewrite (proj1 (proj2 (title_sources scenario1_doc))
                 (mkElem [0; 1; 0] (lit "h1") [] [Text (lit "My Title")]) []
                 eq_refl).
  - reflexivity.
  - discriminate.
Defined.

Lemma blocks_length (l : list Elem) :
  2 * length l <= length (concat (map block_of l)).
Proof.
  induction l as [|el l IH]; [simpl; lia|].
  cbn [map concat]. unfold block_of at 1.
  rewrite !length_app. cbn [length]. lia.
Qed.

Lemma blocks_end (l : list Elem) :
  l <> [] -> exists t, concat (map block_of l) = t ++ [LF; LF].
Proof.
  induction l as [|el l IH]; [congruence|]. intros _.
  destruct l as [|el' l].
  - exists (trim (text [el])). simpl. rewrite app_nil_r. reflexivity.
  - destruct IH as [t T]; [discriminate|].
    exists (block_of el ++ t).
    cbn [map concat] in T |- *. rewrite T, <- !app_assoc. reflexivity.
Qed.

(** X9. The body is the concatenation of one block per visited element,
    its trimmed text followed by two line feeds.  So the body is at least
    twice as long as the number of visited elements, and the text of
    every success result ends with two line feeds. *)
Theorem body_is_joined_blocks {P : Platform} (html : jsstring) (w : World) :
  extract_content (cheerio_load html)
  = concat (map (fun el => trim (text [el]) ++ [LF; LF])
                (content_blocks (cheerio_load html)))
  /\ 2 * length (content_blocks (cheerio_load html))
     <= length (extract_content (cheerio_load html))
  /\ forall r,
      result (processHtml html) w = Normal r -> isError r = None ->
      exists t, map block_text (content r) = [t ++ [LF; LF]].
Proof.
  assert (C := extract_content_concat (cheerio_load html)).
  split; [exact C|]. split.
  - rewrite C. apply blocks_length.
  - intros r R N. rewrite processHtml_result in R. injection R as <-.
    destruct (article_cases (cheerio_load html)) as [E|[E|[B E]]];
      rewrite E in N |- *; try discriminate N.
    destruct (blocks_end (content_blocks (cheerio_load html))) as [t T].
    { intros Z. apply B. apply extract_content_empty. exact Z. }
    rewrite C, T.
    eexists. unfold success, success_text. cbn [content map block_text].
    rewrite !app_assoc. reflexivity.
Qed.

Lemma body_is_joined_blocks_witness :
  exists t,
    map block_text
        (content (success (lit "Title: My Title" ++ [LF] ++ lit "Author: " ++ [LF]
                           ++ lit "Subtitle: " ++ [LF; LF]
                           ++ lit "Hello" ++ [LF; LF])))
    = [t ++ [LF; LF]].
Proof.
  apply (proj2 (proj2 (@body_is_joined_blocks (sample_platform scenario1_doc)
                         (lit "<html>") sample_world))
               _ eq_refl eq_refl).
Defined.

(** X10. An element of class [post-content] is a marker and a container
    at once: a page with a paragraph or heading below such an element is
    always a success, with or without any other marker. *)
Theorem post_content_block_succeeds {P : Platform}
        (html : jsstring) (w : World) (c e : Elem) :
  In c (all_elements (cheerio_load html)) ->
  HasClass c (lit "post-content") ->
  In e (forest (loc c) (childNodes c)) ->
  Block e ->
  exists t,
    result (processHtml html) w = Normal (success t)
    /\ In e (content_blocks (cheerio_load html)).
Proof.
  intros C H E B. rewrite processHtml_result.
  assert (I : In e (content_blocks (cheerio_load html))).
  { apply content_blocks_spec. split; [exact B|].
    exists c. split; [exact C|]. split; [left; exact H | exact E]. }
  assert (M : Marked (cheerio_load html)).
  { exists c. split; [exact C | apply marker_post_content, H]. }
  apply hasSubstackMarkers_spec in M. unfold article. rewrite M.
  destruct (extract_content (cheerio_load html)) eqn:X.
  - apply extract_content_empty in X. rewrite X in I. destruct I.
  - eexists. split; [reflexivity | exact I].
Qed.

Lemma post_content_block_succeeds_witness :
  exists t,
    result (@processHtml (sample_platform scenario1_doc) (lit "<html>"))
           sample_world
    = Normal (success t).
Proof.
  destruct (@post_content_block_succeeds (sample_platform scenario1_doc)
              (lit "<html>") sample_world
              (mkElem [0; 1; 1] (lit "div") [(lit "class", lit "post-content")]
                      [Element (lit "p") [] [Text (lit "Hello")]])
              (mkElem [0; 1; 1; 0] (lit "p") [] [Text (lit "Hello")]))
    as [t [R _]].
  - vm_compute. tauto.
  - apply by_class_spec. reflexivity.
  - vm_compute. tauto.
  - left. reflexivity.
  - exists t. exact R.
Defined.

(** X17. The author is the trimmed text of the elements of class
    [author-name] when that is not blank, and otherwise the trimmed text
    of the [a] elements of class [subscriber-only].  So an author found
    on a page without any [author-name] element is the text of a
    subscription link, and such a page carries the [subscriber-only]
    marker. *)
Theorem author_sources (doc : Document) :
  (trim (text (query doc sel_author_name)) <> [] ->
   extract_author doc = trim (text (query doc sel_author_name)))
  /\ (trim (text (query doc sel_author_name)) = [] ->
      extract_author doc
      = trim (text (filter (matches [[ByClass (lit "subscriber-only")]])
                           (query doc [[ByTag (lit "a")]]))))
  /\ (query doc sel_author_name = [] ->
      extract_author doc <> [] ->
      exists e,
        In e (all_elements doc) /\ tagName e = lit "a"
        /\ HasClass e (lit "subscriber-only") /\ Marker e).
Proof.
  unfold extract_author, sel_a_subscriber_only. rewrite query_compound.
  split; [|split].
  - intros N. destruct (trim (text (query doc sel_author_name)));
      [congruence | reflexivity].
  - intros ->. reflexivity.
  - intros -> NE. cbn [text map concat] in NE.
    change (trim []) with (@nil N) in NE. cbn [str_or] in NE.
    destruct (filter (matches [[ByClass (lit "subscriber-only")]])
                     (query doc [[ByTag (lit "a")]])) as [|e l] eqn:F.
    + destruct NE. reflexivity.
    + assert (I : In e (filter (matches [[ByClass (lit "subscriber-only")]])
                               (query doc [[ByTag (lit "a")]])))
        by (rewrite F; left; reflexivity).
      apply filter_In in I. destruct I as [I C].
      unfold query in I. apply filter_In in I. destruct I as [I T].
      apply by_tag_spec in T. apply by_class_spec in C.
      exists e. repeat split; auto. apply marker_subscriber_only, C.
Qed.

Lemma author_sources_witness :
  extract_author banner_only_doc = lit "Ann".
Proof.
  rewrite (proj1 (author_sources banner_only_doc)).
  - reflexivity.
  - discriminate.
Defined.

(* ================================================================== *)
(** * Further properties: the order of the body *)
(* ================================================================== *)

Lemma path_lt_irrefl (p : path) : path_lt p p = false.
Proof.
  induction p as [|i p IH]; simpl; [reflexivity|].
  rewrite Nat.ltb_irrefl, Nat.eqb_refl, IH. reflexivity.
Qed.

Lemma path_lt_asym (p q : path) :
  path_lt p q = true -> path_lt q p = true -> False.
Proof.
  revert q; induction p as [|i p IH]; intros [|j q]; simpl;
    try discriminate.
  rewrite !orb_true_iff, !andb_true_iff, !Nat.ltb_lt, !Nat.eqb_eq.
  intros [L|[E L]] [L'|[E' L']]; try lia. exact (IH q L L').
Qed.

Lemma path_lt_app (d p q : path) : path_lt (d ++ p) (d ++ q) = path_lt p q.
Proof.
  induction d as [|i d IH]; simpl; [reflexivity|].
  rewrite Nat.ltb_irrefl, Nat.eqb_refl, IH. reflexivity.
Qed.

Lemma path_lt_diverge (d a b : path) (i j : nat) :
  i < j -> path_lt (d ++ i :: a) (d ++ j :: b) = true.
Proof.
  intros L. rewrite path_lt_app. simpl.
  apply Nat.ltb_lt in L. rewrite L. reflexivity.
Qed.

Lemma path_lt_ancestor (p q : path) :
  ancestor_path p q = true -> path_lt p q = true.
Proof.
  intros A. apply ancestor_path_spec in A. destruct A as [i [s ->]].
  rewrite <- (app_nil_r p) at 1. rewrite path_lt_app. reflexivity.
Qed.

(** Two positions in document order are nested or part ways at some
    index. *)
Lemma path_lt_cases (p q : path) :
  path_lt p q = true ->
  ancestor_path p q = true
  \/ exists d i j a b, p = d ++ i :: a /\ q = d ++ j :: b /\ i < j.
Proof.
  revert q; induction p as [|i p IH]; intros [|j q]; simpl;
    try discriminate; auto.
  rewrite orb_true_iff, andb_true_iff, Nat.ltb_lt, Nat.eqb_eq.
  intros [L|[-> L]].
  - right. exists [], i, j, p, q. auto.
  - destruct (IH q L) as [A|[d [i' [j' [a [b [-> [-> L']]]]]]]].
    + left. rewrite Nat.eqb_refl. exact A.
    + right. exists (j :: d), i', j', a, b. auto.
Qed.

Lemma path_lt_extend (p q s t : path) :
  path_lt p q = true -> ancestor_path p q = false ->
  path_lt (p ++ s) (q ++ t) = true.
Proof.
  intros L N. destruct (path_lt_cases p q L) as [A|[d [i [j [a [b [-> [-> L']]]]]]]].
  - congruence.
  - rewrite <- !app_assoc. simpl. apply path_lt_diverge. exact L'.
Qed.

(** ** Ordered lists *)

Lemma OrderedBy_app (A : Type) (R : A -> A -> Prop) (l1 l2 : list A) :
  OrderedBy R (l1 ++ l2)
  <-> OrderedBy R l1 /\ OrderedBy R l2
      /\ forall a b, In a l1 -> In b l2 -> R a b.
Proof.
  induction l1 as [|x l1 IH]; simpl.
  - split; [intros H; repeat split; auto; intros a b [] | tauto].
  - rewrite IH. split.
    + intros [H [O1 [O2 C]]]. repeat split; auto.
      * intros b I. apply H. apply in_or_app. auto.
      * intros a b [<-|I] J; [apply H; apply in_or_app; auto | auto].
    + intros [[H O1] [O2 C]]. repeat split; auto.
      intros b I. apply in_app_or in I. destruct I as [I|I]; auto.
Qed.

Lemma OrderedBy_filter (A : Type) (R : A -> A -> Prop) (f : A -> bool)
      (l : list A) :
  OrderedBy R l -> OrderedBy R (filter f l).
Proof.
  induction l as [|x l IH]; simpl; [auto|]. intros [H O].
  destruct (f x); simpl; auto. split; [|auto].
  intros b I. apply filter_In in I. apply H, I.
Qed.

Lemma OrderedBy_weaken (A : Type) (R R' : A -> A -> Prop) (l : list A) :
  (forall a b, In a l -> In b l -> R a b -> R' a b) ->
  OrderedBy R l -> OrderedBy R' l.
Proof.
  induction l as [|x l IH]; simpl; [auto|]. intros W [H O]. split.
  - intros b I. apply W; auto.
  - apply IH; [|exact O]. intros a b I J. apply W; auto.
Qed.

Lemma OrderedBy_flat_map (A B : Type) (R : B -> B -> Prop) (f : A -> list B)
      (l : list A) :
  (forall x, In x l -> OrderedBy R (f x)) ->
  OrderedBy (fun x y => forall a b, In a (f x) -> In b (f y) -> R a b) l ->
  OrderedBy R (flat_map f l).
Proof.
  induction l as [|x l IH]; simpl; [auto|]. intros E [H O].
  apply OrderedBy_app. split; [apply E; auto|]. split; [apply IH; auto|].
  intros a b I J. apply in_flat_map in J. destruct J as [y [Y J]].
  exact (H y Y a b I J).
Qed.

(** Two lists in strict order with the same elements are equal. *)
Lemma OrderedBy_unique (A : Type) (R : A -> A -> Prop) :
  (forall x, ~ R x x) -> (forall x y, R x y -> R y x -> False) ->
  forall l1 l2,
    OrderedBy R l1 -> OrderedBy R l2 ->
    (forall x, In x l1 <-> In x l2) -> l1 = l2.
Proof.
  intros Irr Asym. induction l1 as [|a l1 IH]; intros [|b l2] O1 O2 M.
  - reflexivity.
  - destruct (proj2 (M b) (or_introl eq_refl)).
  - destruct (proj1 (M a) (or_introl eq_refl)).
  - destruct O1 as [H1 O1], O2 as [H2 O2].
    assert (E : a = b).
    { destruct (proj1 (M a) (or_introl eq_refl)) as [E|I]; [auto|].
      destruct (proj2 (M b) (or_introl eq_refl)) as [E|J]; [auto|].
      destruct (Asym a b (H1 b J) (H2 a I)). }
    subst b. f_equal. apply IH; auto.
    intros x. split; intros I.
    + destruct (proj1 (M x) (or_intror I)) as [<-|J]; [|exact J].
      destruct (Irr a (H1 a I)).
    + destruct (proj2 (M x) (or_intror I)) as [<-|J]; [|exact J].
      destruct (Irr a (H2 a I)).
Qed.

Lemma OrderedBy_NoDup (A : Type) (R : A -> A -> Prop) (l : list A) :
  (forall x, ~ R x x) -> OrderedBy R l -> NoDup l.
Proof.
  intros Irr. induction l as [|a l IH]; simpl; [constructor|].
  intros [H O]. constructor; [|auto].
  intros I. exact (Irr a (H a I)).
Qed.

Lemma before_irrefl (e : Elem) : ~ before e e.
Proof. unfold before. rewrite path_lt_irrefl. discriminate. Qed.

Lemma before_asym (a b : Elem) : before a b -> before b a -> False.
Proof. apply path_lt_asym. Qed.

(** ** The document is in document order *)

Lemma self_and_descendants_subtree (k : Elem) :
  self_and_descendants k
  = subtree (loc k) (Element (tagName k) (attrs k) (childNodes k)).
Proof. destruct k. reflexivity. Qed.

Lemma self_and_descendants_loc (k e : Elem) :
  In e (self_and_descendants k) -> exists s, loc e = loc k ++ s.
Proof.
  rewrite self_and_descendants_subtree. apply subtree_loc.
Qed.

Lemma forest_from_ordered (p : path) (cs : list node) :
  (forall c, In c cs -> forall q, OrderedBy before (subtree q c)) ->
  forall i,
    OrderedBy before
      (concat (mapi_from (fun i c => subtree (p ++ [i]) c) i cs)).
Proof.
  induction cs as [|c cs IH]; intros H i; simpl; [exact I|].
  apply OrderedBy_app. split; [apply H; left; reflexivity|].
  split; [apply IH; intros c' I'; apply H; right; exact I'|].
  intros a b Ia Ib.
  destruct (subtree_loc _ _ _ Ia) as [s La].
  apply in_concat_mapi in Ib. destruct Ib as [j [c' [_ Ib]]].
  destruct (subtree_loc _ _ _ Ib) as [t Lb].
  unfold before. rewrite La, Lb, <- !app_assoc. simpl.
  apply path_lt_diverge. lia.
Qed.

Lemma subtree_ordered (n : node) :
  forall p, OrderedBy before (subtree p n).
Proof.
  induction n as [d|d|t a cs IH] using node_induction; intros p;
    try exact I.
  rewrite subtree_element. split.
  - intros b Ib. destruct (forest_loc _ _ _ Ib) as [j [c [s [_ [_ L]]]]].
    unfold before. rewrite L. apply path_lt_ancestor.
    apply ancestor_path_spec. eauto.
  - apply forest_from_ordered. exact IH.
Qed.

Lemma forest_ordered (p : path) (cs : list node) :
  OrderedBy before (forest p cs).
Proof.
  apply forest_from_ordered. intros c _. apply subtree_ordered.
Qed.

Lemma child_elems_from_ordered (p : path) (cs : list node) :
  forall i,
    OrderedBy before
      (concat (mapi_from
                 (fun i c =>
                    match c with
                    | Element t a cs' => [mkElem (p ++ [i]) t a cs']
                    | _ => []
                    end) i cs)).
Proof.
  induction cs as [|c cs IH]; intros i; simpl; [exact I|].
  apply OrderedBy_app. split.
  - destruct c; simpl; auto. split; [intros b []| exact I].
  - split; [apply IH|]. intros a b Ia Ib.
    apply in_concat_mapi in Ib. destruct Ib as [j [c' [_ Ib]]].
    destruct c as [d|d|t x cs1]; try contradiction.
    destruct c' as [d|d|t' x' cs2]; try contradiction.
    destruct Ia as [<-|[]], Ib as [<-|[]].
    unfold before. simpl. apply path_lt_diverge. lia.
Qed.

Lemma child_elems_ordered (c : Elem) : OrderedBy before (child_elems c).
Proof. apply child_elems_from_ordered. Qed.

(** ** What [removeSubsets] keeps is in document order *)

Lemma removeSubsets_from_uncovered nodes : forall rest seen k,
  In k (removeSubsets_from nodes seen rest) ->
  existsb (fun x => ancestor_path (loc x) (loc k)) nodes = false.
Proof.
  induction rest as [|e rest IH]; intros seen k; simpl; [intros []|].
  destruct (existsb (fun x => path_eqb (loc x) (loc e)) seen); cbn [orb].
  - apply IH.
  - destruct (existsb (fun x => ancestor_path (loc x) (loc e)) nodes) eqn:A.
    + apply IH.
    + intros [<-|I]; [exact A | exact (IH _ _ I)].
Qed.

Lemma removeSubsets_from_ordered nodes : forall rest seen,
  OrderedBy
    (fun x y => before x y
                \/ existsb (fun z => ancestor_path (loc z) (loc y)) nodes = true)
    rest ->
  OrderedBy before (removeSubsets_from nodes seen rest).
Proof.
  induction rest as [|e rest IH]; intros seen; simpl; [auto|].
  intros [H O].
  destruct (existsb (fun x => path_eqb (loc x) (loc e)) seen
            || existsb (fun x => ancestor_path (loc x) (loc e)) nodes).
  - apply IH, O.
  - split; [|apply IH, O]. intros b Ib.
    assert (U := removeSubsets_from_uncovered nodes rest _ b Ib).
    destruct (H b (removeSubsets_from_incl nodes rest _ b Ib)) as [L|C];
      [exact L | congruence].
Qed.

Section Order.
Variable doc : Document.
Variable ctx : list Elem.
Hypothesis ctx_in_doc : incl ctx (all_elements doc).
Hypothesis ctx_ordered : OrderedBy before ctx.

Let kids := flat_map child_elems ctx.

(** Of two children taken in the order of the array, the second comes
    later in the document or has an ancestor in the array. *)
Lemma children_ordered_or_covered :
  OrderedBy
    (fun x y => before x y
                \/ existsb (fun z => ancestor_path (loc z) (loc y)) kids = true)
    kids.
Proof.
  unfold kids. apply OrderedBy_flat_map.
  - intros c _. apply (OrderedBy_weaken _ before); [auto|].
    apply child_elems_ordered.
  - apply (OrderedBy_weaken _ before); [|exact ctx_ordered].
    intros c1 c2 I1 I2 B x y X Y.
    destruct (ancestor_path (loc c1) (loc c2)) eqn:A.
    + right.
      assert (D : In c2 (forest (loc c1) (childNodes c1)))
        by (apply (forest_ancestor [] doc); auto).
      destruct (below_child_subtree c1 c2 D) as [k [K S]].
      destruct (self_and_descendants_loc k c2 S) as [s L].
      apply in_child_elems in Y. destruct Y as [j [t [a [cs [_ ->]]]]].
      apply existsb_exists. exists k. split.
      * apply in_flat_map. eauto.
      * apply ancestor_path_spec. simpl. rewrite L, <- app_assoc.
        destruct s as [|i s]; simpl; eauto.
    + left.
      apply in_child_elems in X. destruct X as [i [t [a [cs [_ ->]]]]].
      apply in_child_elems in Y. destruct Y as [j [t' [a' [cs' [_ ->]]]]].
      unfold before. simpl. apply path_lt_extend; auto.
Qed.

(** [find] returns its elements in document order. *)
Lemma find_ordered (sel : selector) : OrderedBy before (find ctx sel).
Proof.
  unfold find. apply OrderedBy_filter. fold kids.
  assert (R : OrderedBy before (removeSubsets kids))
    by (apply removeSubsets_from_ordered, children_ordered_or_covered).
  apply OrderedBy_flat_map.
  - intros k _. rewrite self_and_descendants_subtree. apply subtree_ordered.
  - apply (OrderedBy_weaken _ before); [|exact R].
    intros r1 r2 I1 I2 B a b Ia Ib.
    destruct (self_and_descendants_loc _ _ Ia) as [s La].
    destruct (self_and_descendants_loc _ _ Ib) as [t Lb].
    unfold before. rewrite La, Lb. apply path_lt_extend; [exact B|].
    assert (U := removeSubsets_from_uncovered kids kids [] r2 I2).
    destruct (ancestor_path (loc r1) (loc r2)) eqn:A; [|reflexivity].
    rewrite <- U. symmetry. apply existsb_exists. exists r1.
    split; [|exact A]. exact (removeSubsets_from_incl kids kids [] r1 I1).
Qed.

End Order.

Lemma below_container_spec (doc : Document) (e : Elem) :
  In e (all_elements doc) ->
  (below_container doc e = true
   <-> exists c, In c (query doc sel_containers)
                 /\ In e (forest (loc c) (childNodes c))).
Proof.
  intros E. unfold below_container, query. rewrite existsb_exists. split.
  - intros [c [C M]]. apply andb_true_iff in M. destruct M as [M A].
    exists c. split; [apply filter_In; auto|].
    apply (forest_ancestor [] doc); auto.
  - intros [c [C D]]. apply filter_In in C. destruct C as [C M].
    exists c. split; [exact C|]. rewrite M. simpl.
    destruct (forest_loc _ _ _ D) as [j [n [s [_ [_ L]]]]].
    apply ancestor_path_spec. eauto.
Qed.

(** X11. The body loop visits, once each and in document order, exactly
    the [p], [h2] and [h3] elements of the document that have a container
    ([.post-content], [article], [.body]) among their ancestors.  A
    paragraph inside nested containers is not visited twice. *)
Theorem content_blocks_in_document_order (doc : Document) :
  content_blocks doc
  = filter (fun e => matches sel_blocks e && below_container doc e)
           (all_elements doc)
  /\ NoDup (content_blocks doc)
  /\ OrderedBy before (content_blocks doc).
Proof.
  assert (Q : incl (query doc sel_containers) (all_elements doc)).
  { intros c C. apply filter_In in C. tauto. }
  assert (O : OrderedBy before (content_blocks doc)).
  { apply (find_ordered doc); [exact Q|].
    apply OrderedBy_filter, forest_ordered. }
  split; [|split; [|exact O]].
  - apply (OrderedBy_unique Elem before before_irrefl before_asym);
      [exact O | apply OrderedBy_filter, forest_ordered |].
    intros e. unfold content_blocks.
    rewrite (find_spec doc _ Q), filter_In, andb_true_iff. split.
    + intros [M [c [C D]]].
      assert (E : In e (all_elements doc))
        by (exact (forest_closed [] doc c e (Q c C) D)).
      split; [exact E|]. split; [exact M|].
      apply below_container_spec; eauto.
    + intros [E [M B]]. split; [exact M|].
      apply below_container_spec in B; auto.
  - exact (OrderedBy_NoDup Elem before _ before_irrefl O).
Qed.

(* ================================================================== *)
(** * Further properties: the tool listing *)
(* ================================================================== *)

(** X12. The listing and the dispatcher agree: a call returns a result
    (rather than throwing "Unknown tool") exactly when its tool name is
    one the listing advertises.  The listing itself writes nothing to the
    stream, and every argument a listed tool requires is declared among
    its properties. *)
Theorem listed_tools_are_the_callable_ones {P : Platform}
        (request : Request) (w w' : World) :
  exists tools,
    result listTools w' = Normal tools
    /\ after listTools w' = w'
    /\ ((exists r, result (handler request) w = Normal r)
        <-> In (name request) (map tool_name tools))
    /\ forall t arg,
        In t tools -> In arg (required (inputSchema t)) ->
        In arg (map fst (properties (inputSchema t))).
Proof.
  eexists. split; [reflexivity|]. split; [reflexivity|]. split.
  - rewrite handler_result. unfold reply. cbn [map tool_name In].
    destruct (str_eqb (name request) (lit "download_substack")) eqn:E.
    + apply str_eqb_eq in E. split; [auto | eauto].
    + apply str_eqb_neq in E. split.
      * intros [r R]. discriminate R.
      * intros [H|[]]. congruence.
  - intros t arg [<-|[]] A. exact A.
Qed.

(* ================================================================== *)
(** * Further properties: the verbose copy *)
(* ================================================================== *)

Section VerboseRuns.
Context {V : Verbose.VerbosePlatform}.

Lemma read_append_same fs p d :
  Verbose.read_file (Verbose.append_file fs p d) p
  = Verbose.read_file fs p ++ d.
Proof.
  induction fs as [|[q c] fs IH]; simpl.
  - rewrite str_eqb_refl. reflexivity.
  - destruct (str_eqb q p) eqn:E; simpl; rewrite E; auto.
Qed.

Lemma read_append_other fs p d q :
  q <> p ->
  Verbose.read_file (Verbose.append_file fs p d) q = Verbose.read_file fs q.
Proof.
  intros N. induction fs as [|[r c] fs IH]; simpl.
  - apply not_eq_sym in N. apply str_eqb_neq in N. rewrite N. reflexivity.
  - destruct (str_eqb r p) eqn:E; simpl.
    + apply str_eqb_eq in E. subst r.
      apply not_eq_sym in N. apply str_eqb_neq in N. rewrite N. reflexivity.
    + destruct (str_eqb r q); auto.
Qed.

Lemma log_failure_same h h' :
  Verbose.HOME h' = Verbose.HOME h ->
  Verbose.fs_fault h' = Verbose.fs_fault h ->
  log_failure h' = log_failure h.
Proof. unfold log_failure, log_path. intros -> ->. reflexivity. Qed.

Lemma Mirrors_refl h : Mirrors h h.
Proof.
  repeat split. exists []. rewrite app_nil_r, Nat.add_0_r.
  repeat split; auto. simpl. rewrite app_nil_r. reflexivity.
Qed.

Lemma Mirrors_log_failure h h' : Mirrors h h' -> log_failure h' = log_failure h.
Proof. intros [H [F _]]. apply log_failure_same; auto. Qed.

(** A [debug] that can write its line. *)
Lemma debug_written message args h :
  log_failure h = None ->
  Verbose.result (Verbose.debug message args) h = Normal tt
  /\ forall h0, Mirrors h0 h ->
                Mirrors h0 (Verbose.after (Verbose.debug message args) h).
Proof.
  unfold log_failure, log_path. intros L.
  unfold Verbose.result, Verbose.after, Verbose.debug, Verbose.bind,
    Verbose.now, Verbose.stderr_write, Verbose.env_HOME, Verbose.call,
    Verbose.appendFileSync. cbn.
  destruct (Verbose.path_join (Verbose.HOME h) (lit "mcp-substack-debug.log"))
    as [e|p] eqn:J; [discriminate L|]. cbn. rewrite L. cbn.
  split; [reflexivity|].
  intros h0 [H [F [C [lines [S [R M]]]]]]. repeat split; auto.
  exists (lines ++ [verbose_line message args h]). cbn.
  split; [rewrite S, <- app_assoc; reflexivity|].
  split; [rewrite R, length_app; cbn; lia|].
  intros p0 J0. unfold log_path in J0. rewrite <- H, J in J0.
  injection J0 as <-.
  assert (J1 : log_path h0 = inr p) by (unfold log_path; rewrite <- H; exact J).
  destruct (M p J1) as [M1 M2].
  rewrite concat_app. cbn. rewrite app_nil_r. split.
  - rewrite read_append_same, M1, <- app_assoc. reflexivity.
  - intros q N. rewrite read_append_other by exact N. apply M2, N.
Qed.

(** A [debug] that cannot: the line reaches [stderr], then the error is
    thrown. *)
Lemma debug_thrown message args h e :
  log_failure h = Some e ->
  Verbose.result (Verbose.debug message args) h = Throw e
  /\ log_failure (Verbose.after (Verbose.debug message args) h) = Some e
  /\ stderr (Verbose.std (Verbose.after (Verbose.debug message args) h))
     = stderr (Verbose.std h) ++ [verbose_line message args h]
  /\ Verbose.files (Verbose.after (Verbose.debug message args) h)
     = Verbose.files h.
Proof.
  unfold log_failure, log_path. intros L.
  unfold Verbose.result, Verbose.after, Verbose.debug, Verbose.bind,
    Verbose.now, Verbose.stderr_write, Verbose.env_HOME, Verbose.call,
    Verbose.appendFileSync. cbn.
  destruct (Verbose.path_join (Verbose.HOME h) (lit "mcp-substack-debug.log"))
    as [e'|p] eqn:J; cbn.
  - injection L as ->. rewrite J. auto.
  - rewrite L. cbn. rewrite J. auto.
Qed.

Lemma runs_ret A (a : A) h (Q : Completion A -> Verbose.Host -> Prop) :
  Q (Normal a) h -> runs (Verbose.ret a) h Q.
Proof. auto. Qed.

Lemma runs_debug_seq A message args (k : Verbose.Eff A) h0 h
      (Q : Completion A -> Verbose.Host -> Prop) :
  log_failure h0 = None -> Mirrors h0 h ->
  (forall h1, Mirrors h0 h1 -> runs k h1 Q) ->
  runs (Verbose.bind (Verbose.debug message args) (fun _ => k)) h Q.
Proof.
  intros L M K.
  assert (L' : log_failure h = None) by (rewrite (Mirrors_log_failure _ _ M); exact L).
  destruct (debug_written message args h L') as [R A'].
  specialize (K _ (A' h0 M)). revert K R.
  unfold runs, Verbose.result, Verbose.after, Verbose.bind.
  destruct (Verbose.debug message args h) as [c h1]. cbn.
  intros K ->. exact K.
Qed.

Lemma runs_bind A B (m : Verbose.Eff A) (k : A -> Verbose.Eff B) h0 h a
      (Q : Completion B -> Verbose.Host -> Prop) :
  runs m h (fun c h1 => c = Normal a /\ Mirrors h0 h1) ->
  (forall h1, Mirrors h0 h1 -> runs (k a) h1 Q) ->
  runs (Verbose.bind m k) h Q.
Proof.
  unfold runs, Verbose.result, Verbose.after, Verbose.bind.
  destruct (m h) as [c h1]. cbn. intros [-> M] K. exact (K h1 M).
Qed.

Lemma runs_call_ok A B (r : JsError + A) (k : A -> Verbose.Eff B) h a
      (Q : Completion B -> Verbose.Host -> Prop) :
  r = inr a -> runs (k a) h Q ->
  runs (Verbose.bind (Verbose.call r) k) h Q.
Proof. intros ->. auto. Qed.

Lemma runs_call_throw A B (r : JsError + A) (k : A -> Verbose.Eff B) h e
      (Q : Completion B -> Verbose.Host -> Prop) :
  r = inl e -> Q (Throw e) h ->
  runs (Verbose.bind (Verbose.call r) k) h Q.
Proof. intros ->. auto. Qed.

Lemma runs_try A (m : Verbose.Eff A) (c : JsError -> Verbose.Eff A) h
      (Q : Completion A -> Verbose.Host -> Prop) :
  runs m h (fun r h1 =>
              match r with
              | Normal a => Q (Normal a) h1
              | Throw e => runs (c e) h1 Q
              end) ->
  runs (Verbose.try_catch m c) h Q.
Proof.
  unfold runs, Verbose.result, Verbose.after, Verbose.try_catch.
  destruct (m h) as [[a|e] h1]; cbn; auto.
Qed.

End VerboseRuns.

Section VerboseResults.
Context {V : Verbose.VerbosePlatform}.

(** The test of line 319 is the test of lines 99-104, negated. *)
Lemma markers_all_zero (doc : Document) :
  forallb (fun count => count =? 0) (Verbose.markers doc)
  = negb (hasSubstackMarkers doc).
Proof.
  unfold Verbose.markers, hasSubstackMarkers. cbn [forallb].
  destruct (length (query doc sel_meta_substack)),
           (length (query doc sel_script_substack)),
           (length (query doc sel_post_content)),
           (length (query doc sel_subscriber_only)); reflexivity.
Qed.

Lemma verbose_validateUrl_runs (url : jsstring) h0 h :
  log_failure h0 = None -> Mirrors h0 h ->
  runs (Verbose.validateUrl url) h
       (fun c h1 => c = Normal (admissible url) /\ Mirrors h0 h1).
Proof.
  intros L M. unfold Verbose.validateUrl, admissible. cbv zeta.
  apply runs_try. destruct (URL_new url) as [e|parsed] eqn:E.
  - apply (runs_call_throw _ _ _ _ _ e); [reflexivity|].
    apply (runs_debug_seq _ _ _ _ h0); auto.
    intros h1 M1. apply runs_ret. auto.
  - apply (runs_call_ok _ _ _ _ _ parsed); [reflexivity|].
    apply (runs_debug_seq _ _ _ _ h0); auto. intros h1 M1.
    apply (runs_debug_seq _ _ _ _ h0); auto. intros h2 M2.
    apply runs_ret. auto.
Qed.

Lemma verbose_processHtml_runs (html : jsstring) h0 h :
  log_failure h0 = None -> Mirrors h0 h ->
  runs (Verbose.processHtml html) h
       (fun c h1 => c = Normal (verbose_article (cheerio_load html))
                    /\ Mirrors h0 h1).
Proof.
  intros L M. unfold Verbose.processHtml, verbose_article. cbv zeta.
  apply (runs_debug_seq _ _ _ _ h0); auto. intros h1 M1.
  rewrite markers_all_zero.
  destruct (hasSubstackMarkers (cheerio_load html)); cbn [negb].
  - apply (runs_debug_seq _ _ _ _ h0); auto. intros h2 M2.
    apply (runs_debug_seq _ _ _ _ h0); auto. intros h3 M3.
    destruct (extract_content (cheerio_load html));
      apply (runs_debug_seq _ _ _ _ h0); auto; intros h4 M4;
      apply runs_ret; auto.
  - apply (runs_debug_seq _ _ _ _ h0); auto. intros h2 M2.
    apply runs_ret. auto.
Qed.

(** The verbose handler when logging works: its value, and the state of
    the logs. *)
Lemma verbose_handler_runs (request : Request) h :
  log_failure h = None ->
  runs (Verbose.handler request) h
       (fun c h1 => c = verbose_reply request /\ Mirrors h h1).
Proof.
  intros L. unfold Verbose.handler, verbose_reply. cbv zeta.
  apply (runs_debug_seq _ _ _ _ h); auto using Mirrors_refl. intros h1 M1.
  apply (runs_debug_seq _ _ _ _ h); auto. intros h2 M2.
  destruct (str_eqb (name request) (lit "download_substack")); cbn [negb].
  2: { apply (runs_debug_seq _ _ _ _ h); auto. intros h3 M3.
       split; [reflexivity | exact M3]. }
  apply runs_try.
  apply (runs_debug_seq _ _ _ _ h); auto. intros h3 M3.
  apply (runs_bind _ _ _ _ h _ (admissible (url request)));
    [apply verbose_validateUrl_runs; auto|]. intros h4 M4.
  destruct (admissible (url request)); cbn [negb].
  2: { apply (runs_debug_seq _ _ _ _ h); auto. intros h5 M5.
       apply runs_ret. auto. }
  apply (runs_debug_seq _ _ _ _ h); auto. intros h5 M5.
  unfold fetched.
  destruct (fetch (url request)) as [e|response] eqn:F.
  { apply (runs_call_throw _ _ _ _ _ e); [reflexivity|].
    apply (runs_debug_seq _ _ _ _ h); auto. intros h6 M6.
    apply runs_ret. auto. }
  apply (runs_call_ok _ _ _ _ _ response); [reflexivity|].
  apply (runs_debug_seq _ _ _ _ h); auto. intros h6 M6.
  destruct (response_text response) as [e|html] eqn:T.
  { apply (runs_call_throw _ _ _ _ _ e); [reflexivity|].
    apply (runs_debug_seq _ _ _ _ h); auto. intros h7 M7.
    apply runs_ret. auto. }
  apply (runs_call_ok _ _ _ _ _ html); [reflexivity|].
  apply (runs_debug_seq _ _ _ _ h); auto. intros h7 M7.
  assert (R := verbose_processHtml_runs html h h7 L M7).
  unfold runs in R |- *. destruct R as [-> M8]. auto.
Qed.

Lemma verbose_debug_seq_thrown A message args (k : Verbose.Eff A) h e :
  log_failure h = Some e ->
  Verbose.bind (Verbose.debug message args) (fun _ => k) h
  = (Throw e, Verbose.after (Verbose.debug message args) h).
Proof.
  intros L. destruct (debug_thrown message args h e L) as [R _].
  revert R. unfold Verbose.result, Verbose.after, Verbose.bind.
  destruct (Verbose.debug message args h) as [c h1]. cbn.
  intros ->. reflexivity.
Qed.

Lemma verbose_validateUrl_thrown (url : jsstring) h e :
  log_failure h = Some e ->
  Verbose.result (Verbose.validateUrl url) h = Throw e.
Proof.
  intros L. unfold Verbose.result, Verbose.validateUrl, Verbose.try_catch.
  cbv zeta. destruct (URL_new url) as [e0|parsed].
  - cbn. rewrite (verbose_debug_seq_thrown _ _ _ _ h e L). reflexivity.
  - unfold Verbose.call, Verbose.ret. unfold Verbose.bind at 1. cbn.
    rewrite (verbose_debug_seq_thrown _ _ _ _ h e L).
    rewrite verbose_debug_seq_thrown with (e := e); [reflexivity|].
    apply (debug_thrown _ _ h e L).
Qed.

End VerboseResults.

(** X13. While the log file can be written, the verbose handler and the
    plain one agree: both throw the same "Unknown tool" error, or both
    return a result with the same [isError]; a success is the same
    object in both, and a failure holds one text block in both (the
    wording differs).  [validateUrl] gives the same verdict in both. *)
Theorem verbose_agrees_with_plain {V : Verbose.VerbosePlatform}
        (request : Request) (w : World) (h : Verbose.Host) :
  log_failure h = None ->
  match result (handler request) w,
        Verbose.result (Verbose.handler request) h with
  | Throw e1, Throw e2 => e2 = e1
  | Normal r1, Normal r2 =>
      isError r2 = isError r1
      /\ (isError r1 = None -> r2 = r1)
      /\ exists t, content r2 = [{| type := lit "text"; block_text := t |}]
  | _, _ => False
  end
  /\ Verbose.result (Verbose.validateUrl (url request)) h
     = result (validateUrl (url request)) w.
Proof.
  intros L. split.
  - destruct (verbose_handler_runs request h L) as [R _].
    rewrite R, handler_result. unfold verbose_reply, reply.
    assert (S : forall t1 t2,
               isError (failure t2) = isError (failure t1)
               /\ (isError (failure t1) = None -> failure t2 = failure t1)
               /\ exists t, content (failure t2)
                            = [{| type := lit "text"; block_text := t |}]).
    { intros t1 t2. cbn. split; [reflexivity|]. split; [discriminate|].
      eexists. reflexivity. }
    destruct (str_eqb (name request) (lit "download_substack")); [|reflexivity].
    destruct (admissible (url request)); [|apply S].
    destruct (fetched (url request)) as [err|html]; [apply S|].
    unfold verbose_article, article.
    destruct (hasSubstackMarkers (cheerio_load html)); [|apply S].
    destruct (extract_content (cheerio_load html)); [apply S|].
    cbn. split; [reflexivity|]. split; [reflexivity|].
    eexists. reflexivity.
  - destruct (verbose_validateUrl_runs (url request) h h L (Mirrors_refl h))
      as [R _].
    rewrite R, validateUrl_result. reflexivity.
Qed.

Lemma verbose_agrees_with_plain_witness :
  @Verbose.result _ (@Verbose.validateUrl (sample_verbose [])
                                         (lit "https://example.com/about"))
                  sample_host
  = Normal false.
Proof.
  refine (eq_trans
            (proj2 (@verbose_agrees_with_plain (sample_verbose [])
                      (mkRequest (lit "download_substack")
                                 (lit "https://example.com/about"))
                      sample_world sample_host eq_refl)) _).
  reflexivity.
Defined.

(** X14. While the log file can be written, the lines a request adds to
    [stderr] are appended, in the same order, to the log file; every
    other file keeps its contents, and the clock is read once per line. *)
Theorem verbose_log_mirrors_stderr {V : Verbose.VerbosePlatform}
        (request : Request) (h : Verbose.Host) (p : jsstring) :
  log_failure h = None ->
  log_path h = inr p ->
  exists lines,
    stderr (Verbose.std (Verbose.after (Verbose.handler request) h))
    = stderr (Verbose.std h) ++ lines
    /\ Verbose.read_file
         (Verbose.files (Verbose.after (Verbose.handler request) h)) p
       = Verbose.read_file (Verbose.files h) p ++ concat lines
    /\ (forall q, q <> p ->
                  Verbose.read_file
                    (Verbose.files (Verbose.after (Verbose.handler request) h)) q
                  = Verbose.read_file (Verbose.files h) q)
    /\ reads (Verbose.std (Verbose.after (Verbose.handler request) h))
       = reads (Verbose.std h) + length lines.
Proof.
  intros L J.
  destruct (verbose_handler_runs request h L)
    as [_ [_ [_ [_ [lines [S [R M]]]]]]].
  destruct (M p J) as [M1 M2].
  exists lines. auto.
Qed.

Lemma verbose_log_mirrors_stderr_witness :
  exists lines,
    stderr (Verbose.std
              (@Verbose.after _ (@Verbose.handler (sample_verbose scenario1_doc)
                                                  scenario1_request)
                              sample_host))
    = stderr (Verbose.std sample_host) ++ lines.
Proof.
  destruct (@verbose_log_mirrors_stderr (sample_verbose scenario1_doc)
              scenario1_request sample_host
              (lit "/home/user/mcp-substack-debug.log") eq_refl eq_refl)
    as [lines [S _]].
  exists lines. exact S.
Defined.

(** X15. When the log file cannot be written ([HOME] undefined, or the
    file system refuses the append) the verbose module fails with the
    logging error: the handler throws it for every request, known tool or
    not, after its first line has reached [stderr]; [validateUrl] throws
    it for every string; the tool listing throws it too.  No file is
    changed. *)
Theorem verbose_unwritable_log_throws {V : Verbose.VerbosePlatform}
        (request : Request) (url : jsstring) (h : Verbose.Host) (e : JsError) :
  log_failure h = Some e ->
  Verbose.result (Verbose.handler request) h = Throw e
  /\ Verbose.result (Verbose.validateUrl url) h = Throw e
  /\ Verbose.result Verbose.listTools h = Throw e
  /\ stderr (Verbose.std (Verbose.after (Verbose.handler request) h))
     = stderr (Verbose.std h)
       ++ [lit "[" ++ clock (Verbose.std h) (reads (Verbose.std h))
           ++ lit "] DEBUG: ========= New Request ========= " ++ [LF]]
  /\ Verbose.files (Verbose.after (Verbose.handler request) h) = Verbose.files h.
Proof.
  intros L.
  destruct (debug_thrown (lit "========= New Request =========") [] h e L)
    as [_ [_ [S F]]].
  split; [|split; [|split; [|split]]].
  - unfold Verbose.result, Verbose.handler.
    rewrite (verbose_debug_seq_thrown _ _ _ _ h e L). reflexivity.
  - apply verbose_validateUrl_thrown, L.
  - unfold Verbose.result, Verbose.listTools.
    rewrite (verbose_debug_seq_thrown _ _ _ _ h e L). reflexivity.
  - unfold Verbose.after at 1, Verbose.handler.
    rewrite (verbose_debug_seq_thrown _ _ _ _ h e L). cbn [snd].
    rewrite S. reflexivity.
  - unfold Verbose.after at 1, Verbose.handler.
    rewrite (verbose_debug_seq_thrown _ _ _ _ h e L). exact F.
Qed.

Lemma verbose_unwritable_log_throws_witness :
  @Verbose.result _ (@Verbose.handler (sample_verbose scenario1_doc)
                                      scenario1_request) homeless_host
  = Throw (mkError (lit "TypeError")
                   (lit "The path argument must be of type string")).
Proof.
  apply (proj1 (@verbose_unwritable_log_throws (sample_verbose scenario1_doc)
                  scenario1_request (lit "x") homeless_host _ eq_refl)).
Defined.

(** X16. The verbose copy reports a failed fetch with the message of the
    error alone, where the plain module prints the error with its name:
    for an error with a name and a message the plain text is the verbose
    text with [<name>: ] put before the message. *)
Theorem verbose_error_text_is_message {V : Verbose.VerbosePlatform}
        (request : Request) (w : World) (h : Verbose.Host) (err : JsError) :
  log_failure h = None ->
  name request = lit "download_substack" ->
  result (validateUrl (url request)) w = Normal true ->
  (fetch (url request) = inl err
   \/ exists response,
       fetch (url request) = inr response
       /\ response_text response = inl err) ->
  Verbose.result (Verbose.handler request) h
  = Normal (failure (lit "Error processing Substack post: " ++ err_message err))
  /\ (err_name err <> [] -> err_message err <> [] ->
      result (handler request) w
      = Normal (failure (lit "Error processing Substack post: "
                         ++ err_name err ++ lit ": " ++ err_message err))).
Proof.
  intros L N A F. rewrite validateUrl_result in A. injection A as A.
  assert (E : fetched (url request) = inl err).
  { unfold fetched. destruct F as [F|[response [F T]]]; rewrite F; auto. }
  split.
  - destruct (verbose_handler_runs request h L) as [R _].
    rewrite R. unfold verbose_reply. rewrite N, str_eqb_refl, A, E.
    reflexivity.
  - intros HN HM. rewrite handler_result. unfold reply.
    rewrite N, str_eqb_refl, A, E. unfold error_text, Error_toString.
    destruct (err_name err), (err_message err); congruence.
Qed.

Lemma verbose_error_text_is_message_witness :
  @Verbose.result _ (@Verbose.handler offline_verbose scenario1_request)
                  sample_host
  = Normal (failure (lit "Error processing Substack post: connect ECONNREFUSED")).
Proof.
  apply (proj1 (@verbose_error_text_is_message offline_verbose
                  scenario1_request sample_world sample_host
                  (mkError (lit "FetchError") (lit "connect ECONNREFUSED"))
                  eq_refl eq_refl eq_refl (or_introl eq_refl))).
Defined.
